(** * ethutil: the Transact pipeline and signature recovery of cmd/common.go

    A shallow embedding of the functions of [cmd/common.go] that decide the
    behaviour of [getRecoveryId], [buildECDSASignature], [RecoverPubkey],
    [getTxReceipt] and [Transact], followed by the properties proved of them.

    Conventions.
    - Go's [*big.Int] is [Z].  Go's [int64], [uint64] and [int] (taken to be
      64 bits wide, as on every 64-bit target) are [Z] with the wrap-around
      written out ([wrap64], [uint64]).
    - A byte is a [Z] in [0, 256); a byte slice is a [list byte].
    - A Go call that can return an error, exit the process ([log.Fatalf]) or
      panic returns a [Res]. *)

From Stdlib Require Import ZArith Lia Bool String Ascii QArith List.
Import ListNotations.
Local Open Scope Z_scope.

(** ** Outcomes of a Go call *)

(** Go [error] values, as far as the code distinguishes them. *)
Inductive Error : Type :=
| NotFound                              (* ethereum.NotFound *)
| RpcError (msg : string)               (* any other error of the node *)
| Errorf (msg : string)                 (* fmt.Errorf without %w *)
| Wrap (ctx : string) (e : Error).      (* fmt.Errorf("ctx: %w", e) *)

(** Run-time panics the modelled code can raise. *)
Inductive PanicKind : Type :=
| SliceBounds                           (* slice bounds out of range *)
| IndexOutOfRange                       (* index out of range *)
| NilDereference                        (* nil pointer dereference *)
| PanicMsg (msg : string).              (* an explicit panic(msg) *)

Inductive Res (A : Type) : Type :=
| Ok (a : A)                            (* normal return, err == nil *)
| Err (e : Error)                       (* return of a non-nil error *)
| Fatal (e : Error)                     (* log.Fatalf: the process exits *)
| Panic (p : PanicKind)                 (* run-time panic *)
| OutOfFuel.                            (* the model's loop bound was reached *)
Arguments Ok {A} a.
Arguments Err {A} e.
Arguments Fatal {A} e.
Arguments Panic {A} p.
Arguments OutOfFuel {A}.

Definition res_bind {A B : Type} (r : Res A) (k : A -> Res B) : Res B :=
  match r with
  | Ok a => k a
  | Err e => Err e
  | Fatal e => Fatal e
  | Panic p => Panic p
  | OutOfFuel => OutOfFuel
  end.

(** ** Machine integers *)

Abbreviation byte := Z (only parsing).

(** Conversion to [uint64]: the value modulo 2^64. *)
Definition uint64 (x : Z) : Z := x mod 2 ^ 64.

(** Conversion to [int64] (and to [int]): two's complement wrap-around. *)
Definition wrap64 (x : Z) : Z := (x + 2 ^ 63) mod 2 ^ 64 - 2 ^ 63.

Definition sub64 (a b : Z) : Z := wrap64 (a - b).
Definition mul64 (a b : Z) : Z := wrap64 (a * b).
(** Go's [/] on signed integers truncates toward zero. *)
Definition div64 (a b : Z) : Z := wrap64 (Z.quot a b).

(** Conversion [byte(x)] of an [int]: the low eight bits. *)
Definition byte_of_int (x : Z) : byte := x mod 256.

(** ** math/big *)

Module big.

(** [Int.Int64]: the low 64 bits of the magnitude as an [int64], negated
    when the number is negative (what the implementation returns also when
    the value does not fit). *)
Definition Int64 (x : Z) : Z :=
  let v := wrap64 (Z.abs x mod 2 ^ 64) in
  if x <? 0 then wrap64 (- v) else v.

(** Big-endian digits of [n] in base 256, most significant first, pushed in
    front of [acc]; [fuel] bounds the number of digits. *)
Fixpoint be_digits (fuel : nat) (n : Z) (acc : list byte) : list byte :=
  match fuel with
  | O => acc
  | S fuel' =>
      if n =? 0 then acc
      else be_digits fuel' (n / 256) (n mod 256 :: acc)
  end.

(** [Int.Bytes]: the absolute value as a big-endian byte slice, without
    leading zero bytes (empty for 0). *)
Definition Bytes (x : Z) : list byte :=
  be_digits (S (Z.to_nat (Z.log2 (Z.abs x)))) (Z.abs x) [].

(** The number a big-endian byte slice denotes. *)
Definition be_value (bs : list byte) : Z :=
  fold_left (fun acc b => acc * 256 + b) bs 0.

End big.

(** ** Slices *)

Definition len {A : Type} (s : list A) : Z := Z.of_nat (length s).

(** [make([]byte, n, n)] *)
Definition make (n : Z) : list byte := repeat 0 (Z.to_nat n).

(** [copy(dst[lo:], src)]: the slice expression panics when [lo] is outside
    [0 .. len(dst)]; otherwise [min(len(dst)-lo, len(src))] bytes of [src]
    overwrite [dst] from index [lo].  Returns the updated [dst]. *)
Definition copy_from (dst : list byte) (lo : Z) (src : list byte)
  : Res (list byte) :=
  if (lo <? 0) || (len dst <? lo) then Panic SliceBounds
  else
    let n := Nat.min (length dst - Z.to_nat lo) (length src) in
    Ok (firstn (Z.to_nat lo) dst ++ firstn n src
          ++ skipn (Z.to_nat lo + n) dst).

(** ** Signature recovery (common.go, getRecoveryId .. RecoverPubkey) *)

(** [getRecoveryId]: the ecdsa recovery id from [v]. *)
Definition getRecoveryId (v : Z) : Z :=
  let v64 := big.Int64 v in
  if (v64 =? 0) || (v64 =? 1) then
    (* v in eip2718 *)
    v64
  else if (v64 =? 27) || (v64 =? 28) then
    (* v before eip155 *)
    sub64 v64 27
  else
    (* v in eip155 *)
    let chainId := div64 (sub64 v64 35) 2 in
    sub64 (sub64 v64 35) (mul64 2 chainId).

(** [buildECDSASignature]: the 65-byte compact signature r || s || recid. *)
Definition buildECDSASignature (v r s : Z) : Res (list byte) :=
  let recoveryId := getRecoveryId v in
  let rBytes := make 32 in
  let sBytes := make 32 in
  res_bind (copy_from rBytes (32 - len (big.Bytes r)) (big.Bytes r))
    (fun rBytes =>
  res_bind (copy_from sBytes (32 - len (big.Bytes s)) (big.Bytes s))
    (fun sBytes =>
  let rsBytes := rBytes ++ sBytes in
  Ok (rsBytes ++ [byte_of_int recoveryId]))).

Section Recover.

(** [crypto.Ecrecover msg sig], the curve primitive of go-ethereum. *)
Variable Ecrecover : list byte -> list byte -> Res (list byte).

(** [RecoverPubkey] *)
Definition RecoverPubkey (v r s : Z) (msg : list byte) : Res (list byte) :=
  res_bind (buildECDSASignature v r s) (fun signature =>
  Ecrecover msg signature).

End Recover.

(** ** strconv and shopspring/decimal, as far as Transact uses them

    Library functions, not code of the repository: the definitions follow
    the libraries' implementations of the calls Transact makes. *)

Module strconv.

Definition digit_of (c : ascii) : option Z :=
  let n := Z.of_nat (nat_of_ascii c) in
  if (48 <=? n) && (n <=? 57) then Some (n - 48) else None.

(** Reads a run of decimal digits that must extend to the end of [s]. *)
Fixpoint parse_digits (s : string) (acc : Z) : option Z :=
  match s with
  | EmptyString => Some acc
  | String c s' =>
      match digit_of c with
      | Some d => parse_digits s' (acc * 10 + d)
      | None => None
      end
  end.

(** The base-10 integer syntax shared by [strconv.ParseInt(s, 10, _)] and
    [big.Int.SetString(s, 10)]: an optional sign and at least one digit. *)
Definition parse_integer (s : string) : option Z :=
  match s with
  | EmptyString => None
  | String c s' =>
      if Ascii.eqb c "+" then
        match s' with EmptyString => None | _ => parse_digits s' 0 end
      else if Ascii.eqb c "-" then
        match s' with
        | EmptyString => None
        | _ => option_map Z.opp (parse_digits s' 0)
        end
      else parse_digits s 0
  end.

Inductive NumError : Type := ErrSyntax | ErrRange.

(** [strconv.ParseInt(s, 10, bitSize)] *)
Definition ParseInt (s : string) (bitSize : Z) : NumError + Z :=
  match parse_integer s with
  | None => inl ErrSyntax
  | Some n =>
      if (- 2 ^ (bitSize - 1) <=? n) && (n <=? 2 ^ (bitSize - 1) - 1)
      then inr n else inl ErrRange
  end.

End strconv.

Module decimal.

(** A [Decimal] denotes [value * 10 ^ exp]. *)
Record Decimal : Type := mkDecimal { value : Z; exp : Z }.

(** The zero value [Decimal{}], which every method reads as 0. *)
Definition zero : Decimal := mkDecimal 0 0.

(** [s[:i]] and [s[i+1:]] for the first index [i] of [s] whose character
    satisfies [p]; [None] when there is none (the index is -1). *)
Fixpoint cut (p : ascii -> bool) (s : string) : option (string * string) :=
  match s with
  | EmptyString => None
  | String c s' =>
      if p c then Some (EmptyString, s')
      else match cut p s' with
           | Some (before, after) => Some (String c before, after)
           | None => None
           end
  end.

Definition is_E (c : ascii) : bool := Ascii.eqb c "E" || Ascii.eqb c "e".
Definition is_dot (c : ascii) : bool := Ascii.eqb c ".".

Definition strlen (s : string) : Z := Z.of_nat (String.length s).

(** [decimal.NewFromString]: [inl] is the error return (with [Decimal{}]). *)
Definition NewFromString (input : string) : string + Decimal :=
  (* scientific notation: split at the first 'E' or 'e' *)
  let scientific :=
    match cut is_E input with
    | Some (mantissa, expString) =>
        match strconv.ParseInt expString 32 with
        | inr expInt => inr (mantissa, expInt)
        | inl strconv.ErrRange => inl "fractional part too long"%string
        | inl strconv.ErrSyntax => inl "exponent is not numeric"%string
        end
    | None => inr (input, 0)
    end in
  match scientific with
  | inl e => inl e
  | inr (value, exp) =>
      (* locate the decimal point; a second one is an error *)
      let pointed :=
        match cut is_dot value with
        | None => inr (value, exp)
        | Some (before, after) =>
            match cut is_dot after with
            | Some _ => inl "too many .s"%string
            | None => inr ((before ++ after)%string, exp - strlen after)
            end
        end in
      match pointed with
      | inl e => inl e
      | inr (intString, exp) =>
          let dValue :=
            if strlen intString <=? 18 then
              match strconv.ParseInt intString 64 with
              | inr parsed64 => Some parsed64
              | inl _ => None
              end
            else strconv.parse_integer intString in
          match dValue with
          | None => inl "can't convert to decimal"%string
          | Some dValue =>
              if (exp <? - 2 ^ 31) || (2 ^ 31 - 1 <? exp)
              then inl "fractional part too long"%string
              else inr (mkDecimal dValue exp)
          end
      end
  end.

(** [decimal.RequireFromString]: panics where [NewFromString] fails. *)
Definition RequireFromString (input : string) : Res Decimal :=
  match NewFromString input with
  | inr d => Ok d
  | inl e => Panic (PanicMsg e)
  end.

(** [Decimal.Mul] *)
Definition Mul (d d2 : Decimal) : Res Decimal :=
  let expInt64 := exp d + exp d2 in
  if (2 ^ 31 - 1 <? expInt64) || (expInt64 <? - 2 ^ 31)
  then Panic (PanicMsg "exponent overflows an int32!")
  else Ok (mkDecimal (value d * value d2) expInt64).

(** [Decimal.BigInt]: the integer part, the value rescaled to exponent 0
    (rounding toward zero when digits are dropped). *)
Definition BigInt (d : Decimal) : Z :=
  if exp d =? 0 then value d
  else if exp d <? 0 then Z.quot (value d) (10 ^ (- exp d))
  else value d * 10 ^ exp d.

End decimal.

(** ** Data of the transaction pipeline *)

Abbreviation Address := (list Z) (only parsing).     (* common.Address *)
Abbreviation Hash := (list Z) (only parsing).        (* common.Hash *)
Abbreviation PrivateKey := Z (only parsing).    (* ecdsa.PrivateKey, its scalar *)

Definition Hash_eqb (a b : Hash) : bool :=
  if list_eq_dec Z.eq_dec a b then true else false.

(** [types.Transaction] before signing: the two shapes Transact builds. *)
Inductive Tx : Type :=
| DynamicFeeTx (Nonce : Z) (To : option Address) (Value : Z) (Gas : Z)
               (GasTipCap GasFeeCap : Z) (Data : list byte)
| LegacyTx (Nonce : Z) (To : option Address) (Value : Z) (Gas : Z)
           (GasPrice : Z) (Data : list byte).

Definition Gas (tx : Tx) : Z :=
  match tx with
  | DynamicFeeTx _ _ _ g _ _ _ => g
  | LegacyTx _ _ _ g _ _ => g
  end.

(** A signed transaction: the transaction and its signature values. *)
Record SignedTx : Type := mkSignedTx {
  stx_tx : Tx; stx_v : Z; stx_r : Z; stx_s : Z
}.

(** [ethereum.FeeHistory]; rows of [Reward] are blocks in increasing block
    number, the first being [OldestBlock], columns the requested percentiles. *)
Record FeeHistory : Type := mkFeeHistory {
  OldestBlock : Z;
  Reward : list (list Z);
  BaseFeePerGas : list Z
}.

(** The block header field Transact reads; [None] is a nil [BaseFee()]. *)
Record Block : Type := mkBlock { BaseFee : option Z }.

Record Receipt : Type := mkReceipt { Status : Z }.
Definition ReceiptStatusSuccessful : Z := 1.

Record CallMsg : Type := mkCallMsg {
  msg_From : Address; msg_To : option Address; msg_Gas : Z;
  msg_GasPrice : Z; msg_Value : Z; msg_Data : list byte
}.

(** The pair (value, error) a node or library call returns. *)
Inductive Reply (A : Type) : Type :=
| Success (a : A)
| Failure (e : Error).
Arguments Success {A} a.
Arguments Failure {A} e.

(** The JSON-RPC node, as the answers it gives.  The [n]-th receipt lookup
    of a run answers after [fst (TransactionReceipt n h)] nanoseconds. *)
Record Node : Type := mkNode {
  PendingNonceAt : Address -> Reply Z;
  CodeAt : Address -> Reply (list byte);
  getGasPrice : Reply Z;
  eth_feeHistory : Z -> list Z -> Reply FeeHistory;
  BlockByNumber : Reply Block;
  NetworkID : Reply Z;
  EstimateGas : CallMsg -> Reply Z;
  eth_sendRawTransaction : string -> Reply (list byte);
  TransactionReceipt : nat -> Hash -> Z * Reply Receipt
}.

(** Primitives of go-ethereum the pipeline calls and does not implement. *)
Record Lib : Type := mkLib {
  PubkeyToAddress : PrivateKey -> Address;
  SignTx : Tx -> Z -> PrivateKey -> Reply SignedTx;
  TxHash : SignedTx -> Hash;                   (* Transaction.Hash *)
  MarshalBinary : SignedTx -> Reply (list byte);
  hexutil_Encode : list byte -> string;
  HexToHash : string -> Hash;
  Hash_String : Hash -> string;
  CreateAddress : Address -> Z -> Address
}.

(** The package-level options and constants Transact consults; they are
    declared in other files of the package. *)
Record Options : Type := mkOptions {
  globalOptNonce : Z;
  globalOptGasLimit : Z;
  gasUsedByTransferEth : Z;
  globalOptTxType : string;
  txTypeEip1559 : string;
  globalOptMaxPriorityFeePerGas : string;
  globalOptMaxFeePerGas : string;
  globalOptShowRawTx : bool;
  globalOptShowEstimateGas : bool;
  globalOptDryRun : bool;
  transferNotCheck : bool;
  globalOptTerseOutput : bool;
  globalOptNodeUrl : string;
  nodeUrlMap : list (string * string)
}.

Inductive LogMsg : Type :=
| LogTxNotFound (h : Hash)                (* "tx %v not found ..." *)
| LogRecheck (h : Hash)                   (* "re-check tx %v after 5 seconds" *)
| LogRawTx (rawTx : string)
| LogEstimateGas (gas : Z)
| LogTxNotSame (computed returned : Hash) (* "warning: tx not same. ..." *)
| LogExplorerUrl (h : Hash)
| LogContractDeployed (a : Address).

(** What a run does to the outside, in order. *)
Inductive Event : Type :=
| CallPendingNonceAt (a : Address)
| CallCodeAt (a : Address)
| CallGetGasPrice
| CallFeeHistory (blockCount : Z) (rewardPercentiles : list Z)
| CallBlockByNumber
| CallNetworkID
| CallEstimateGas (msg : CallMsg)
| CallSendRawTransaction (rawTx : string)
| CallTransactionReceipt (h : Hash)
| Sleep (d : Z)
| Log (m : LogMsg).

(** The state a run threads: the clock (nanoseconds), the number of receipt
    lookups made, and the events so far. *)
Record World : Type := mkWorld { now : Z; lookups : nat; trace : list Event }.

(** ** The state and error monad of a run *)

Definition M (A : Type) : Type := World -> Res A * World.

Definition ret {A : Type} (a : A) : M A := fun w => (Ok a, w).

Definition bind {A B : Type} (m : M A) (k : A -> M B) : M B :=
  fun w =>
    match m w with
    | (Ok a, w') => k a w'
    | (Err e, w') => (Err e, w')
    | (Fatal e, w') => (Fatal e, w')
    | (Panic p, w') => (Panic p, w')
    | (OutOfFuel, w') => (OutOfFuel, w')
    end.

Declare Scope go_scope.
Delimit Scope go_scope with go.
Notation "x <- m ;; k" := (bind m (fun x => k))
  (at level 61, m at next level, right associativity) : go_scope.
Notation "m ;; k" := (bind m (fun _ => k))
  (at level 61, right associativity) : go_scope.
Local Open Scope go_scope.

Definition raise {A : Type} (e : Error) : M A := fun w => (Err e, w).
Definition panic {A : Type} (p : PanicKind) : M A := fun w => (Panic p, w).
Definition out_of_fuel {A : Type} : M A := fun w => (OutOfFuel, w).
Definition pure_res {A : Type} (r : Res A) : M A := fun w => (r, w).

Definition emit (ev : Event) : M unit :=
  fun w => (Ok tt, mkWorld (now w) (lookups w) (trace w ++ [ev])).

Definition of_reply {A : Type} (r : Reply A) : M A :=
  match r with
  | Success a => ret a
  | Failure e => raise e
  end.

(** A call to the node: the request is made, then its reply is returned. *)
Definition call {A : Type} (ev : Event) (r : Reply A) : M A :=
  emit ev ;; of_reply r.

(** [x, err := m; checkErr(err)]: a non-nil error ends the process.  (The
    selector lookup checkErr logs before exiting is left out.) *)
Definition checkErr {A : Type} (m : M A) : M A :=
  fun w =>
    match m w with
    | (Err e, w') => (Fatal e, w')
    | other => other
    end.

(** [x, err := m; if err != nil { return fmt.Errorf("ctx: %w", err) }] *)
Definition wrapErr {A : Type} (ctx : string) (m : M A) : M A :=
  fun w =>
    match m w with
    | (Err e, w') => (Err (Wrap ctx e), w')
    | other => other
    end.

Definition time_Now : M Z := fun w => (Ok (now w), w).

Definition Second : Z := 1000000000.

(** [time.Sleep(d)] *)
Definition time_Sleep (d : Z) : M unit :=
  fun w => (Ok tt, mkWorld (now w + d) (lookups w) (trace w ++ [Sleep d])).

(** ** getTxReceipt and Transact *)

Section Pipeline.

Variable lib : Lib.
Variable node : Node.
Variable opt : Options.

(** [client.TransactionReceipt]: the next scripted lookup of the node. *)
Definition client_TransactionReceipt (txHash : Hash) : M (Reply Receipt) :=
  fun w =>
    let (latency, reply) := TransactionReceipt node (lookups w) txHash in
    (Ok reply,
     mkWorld (now w + latency) (S (lookups w))
             (trace w ++ [CallTransactionReceipt txHash])).

Definition is_NotFound (e : Error) : bool :=
  match e with NotFound => true | _ => false end.

(** The [recheck:] loop of getTxReceipt; [fuel] bounds the number of
    lookups the model follows. *)
Fixpoint recheck (fuel : nat) (txHash : Hash) (timeout beginTime : Z)
  : M Receipt :=
  match fuel with
  | O => out_of_fuel
  | S fuel' =>
      reply <- client_TransactionReceipt txHash ;;
      match reply with
      | Success rp => ret rp           (* no error *)
      | Failure err =>
          if is_NotFound err then
            emit (Log (LogTxNotFound txHash)) ;;
            t <- time_Now ;;
            if (0 <? timeout) && (t <? beginTime + timeout) then
              (* timeout *)
              raise (Errorf "GetReceipt timeout")
            else
              (* not timeout *)
              emit (Log (LogRecheck txHash)) ;;
              time_Sleep (Second * 5) ;;
              recheck fuel' txHash timeout beginTime
          else raise (Wrap "TransactionReceipt fail" err)
      end
  end.

(** [getTxReceipt] *)
Definition getTxReceipt (fuel : nat) (txHash : Hash) (timeout : Z)
  : M Receipt :=
  beginTime <- time_Now ;;
  recheck fuel txHash timeout beginTime.

(** [isContractAddress] *)
Definition isContractAddress (address : Address) : M bool :=
  bytecode <- call (CallCodeAt address) (CodeAt node address) ;;
  let isContract := 0 <? len bytecode in
  ret isContract.

(** [GenRawTx] *)
Definition GenRawTx (signedTx : SignedTx) : Reply string :=
  match MarshalBinary lib signedTx with
  | Failure e => Failure e
  | Success data => Success (hexutil_Encode lib data)
  end.

(** [SendRawTransaction] *)
Definition SendRawTransaction (signedTx : SignedTx) : M Hash :=
  rawTx <- of_reply (GenRawTx signedTx) ;;
  result <- call (CallSendRawTransaction rawTx)
                 (eth_sendRawTransaction node rawTx) ;;
  ret (HexToHash lib (hexutil_Encode lib result)).

(** Transact, lines 254-263: the nonce. *)
Definition Transact_nonce (fromAddress : Address) : M Z :=
  if globalOptNonce opt <? 0 then
    wrapErr "PendingNonceAt fail"
      (call (CallPendingNonceAt fromAddress) (PendingNonceAt node fromAddress))
  else ret (uint64 (globalOptNonce opt)).

(** Transact, lines 265-283: the gas limit. *)
Definition Transact_gasLimit (toAddress : option Address) (data : list byte)
  : M Z :=
  let gasLimit := globalOptGasLimit opt in
  if gasLimit =? 0 then
    (* if user not specified *)
    let gasLimit := uint64 (gasUsedByTransferEth opt) in
    match toAddress with
    | None => ret 7000000
    | Some to =>
        isContract <- wrapErr "isContractAddress fail" (isContractAddress to) ;;
        let gasLimit := if isContract then 900000 else gasLimit in
        let gasLimit := if 0 <? len data then 900000 else gasLimit in
        ret gasLimit
    end
  else ret gasLimit.

(** Transact, lines 286-289: the legacy gas price. *)
Definition Transact_gasPrice (gasPrice : option Z) : M Z :=
  match gasPrice with
  | None => checkErr (call CallGetGasPrice (getGasPrice node))
  | Some p => ret p
  end.

(** [feeHistory.Reward[i][j]] *)
Definition Reward_at (feeHistory : FeeHistory) (i j : nat) : M Z :=
  match nth_error (Reward feeHistory) i with
  | None => panic IndexOutOfRange
  | Some row =>
      match nth_error row j with
      | None => panic IndexOutOfRange
      | Some x => ret x
      end
  end.

(** [x.Add(Reward[0][j], Reward[1][j]); x.Add(&x, Reward[2][j]);
    x.Div(&x, big.NewInt(3))]; [big.Int.Div] is Euclidean division, which
    for the divisor 3 is [Z.div]. *)
Definition reward_mean (feeHistory : FeeHistory) (j : nat) : M Z :=
  a <- Reward_at feeHistory 0 j ;;
  b <- Reward_at feeHistory 1 j ;;
  let x := a + b in
  c <- Reward_at feeHistory 2 j ;;
  let x := x + c in
  ret (x / 3).

(** Transact, lines 343-366: the fee estimate from eth_feeHistory. *)
Definition Transact_feeEstimate : M (Z * Z) :=
  feeHistory <- checkErr (call (CallFeeHistory 4 [5; 50; 95])
                               (eth_feeHistory node 4 [5; 50; 95])) ;;
  slow <- reward_mean feeHistory 0 ;;
  average <- reward_mean feeHistory 1 ;;
  fast <- reward_mean feeHistory 2 ;;
  (* Currently, slow/fast are not used. we use average value *)
  let maxPriorityFeePerGasEstimate := average in
  pendingBlock <- checkErr (call CallBlockByNumber (BlockByNumber node)) ;;
  match BaseFee pendingBlock with
  | None => panic NilDereference
  | Some baseFee =>
      ret (maxPriorityFeePerGasEstimate, baseFee + maxPriorityFeePerGasEstimate)
  end.

(** [d, _ := decimal.NewFromString(s);
    d.Mul(decimal.RequireFromString("1000000000")).BigInt()] *)
Definition gwei_to_wei (s : string) : Res Z :=
  let d := match decimal.NewFromString s with
           | inr d => d
           | inl _ => decimal.zero
           end in
  res_bind (decimal.RequireFromString "1000000000") (fun giga =>
  res_bind (decimal.Mul d giga) (fun wei =>
  Ok (decimal.BigInt wei))).

Definition is_empty (s : string) : bool :=
  match s with EmptyString => true | _ => false end.

(** Transact, lines 293-400: the fee caps of a dynamic-fee transaction. *)
Definition Transact_feeCaps : M (Z * Z) :=
  estimate <-
    (if is_empty (globalOptMaxPriorityFeePerGas opt)
        || is_empty (globalOptMaxFeePerGas opt)
     then Transact_feeEstimate
     else ret (0, 0)) ;;
  let '(maxPriorityFeePerGasEstimate, maxFeePerGasEstimate) := estimate in
  maxPriorityFeePerGas <-
    (if is_empty (globalOptMaxPriorityFeePerGas opt)
     then ret maxPriorityFeePerGasEstimate
     else pure_res (gwei_to_wei (globalOptMaxPriorityFeePerGas opt))) ;;
  maxFeePerGas <-
    (if is_empty (globalOptMaxFeePerGas opt)
     then ret maxFeePerGasEstimate
     else pure_res (gwei_to_wei (globalOptMaxFeePerGas opt))) ;;
  ret (maxPriorityFeePerGas, maxFeePerGas).

(** Transact, lines 291-410: the unsigned transaction. *)
Definition Transact_newTx (nonce : Z) (toAddress : option Address)
    (amount gasLimit gasPrice : Z) (data : list byte) : M Tx :=
  if String.eqb (globalOptTxType opt) (txTypeEip1559 opt) then
    caps <- Transact_feeCaps ;;
    ret (DynamicFeeTx nonce toAddress amount gasLimit
           (fst caps) (snd caps) data)
  else
    ret (LegacyTx nonce toAddress amount gasLimit gasPrice data).

(** Transact, lines 412-442: chain id, signature, optional raw-tx log and
    gas simulation. *)
Definition Transact_sign (tx : Tx) (privateKey : PrivateKey)
    (fromAddress : Address) (toAddress : option Address)
    (amount gasLimit gasPrice : Z) (data : list byte) : M SignedTx :=
  chainID <- wrapErr "NetworkID fail" (call CallNetworkID (NetworkID node)) ;;
  signedTx <- wrapErr "SignTx fail"
                (of_reply (SignTx lib tx chainID privateKey)) ;;
  (if globalOptShowRawTx opt then
     let rawTx := match GenRawTx signedTx with
                  | Success s => s
                  | Failure _ => EmptyString
                  end in
     emit (Log (LogRawTx rawTx))
   else ret tt) ;;
  (if globalOptShowEstimateGas opt then
     let msg := mkCallMsg fromAddress toAddress gasLimit gasPrice amount data in
     gas <- wrapErr "EstimateGas fail"
              (call (CallEstimateGas msg) (EstimateGas node msg)) ;;
     emit (Log (LogEstimateGas gas))
   else ret tt) ;;
  ret signedTx.

(** Transact, lines 252-442: everything up to the signed transaction. *)
Definition Transact_prepare (privateKey : PrivateKey)
    (toAddress : option Address) (amount : Z) (gasPrice : option Z)
    (data : list byte) : M (Address * Z * SignedTx) :=
  let fromAddress := PubkeyToAddress lib privateKey in
  nonce <- Transact_nonce fromAddress ;;
  gasLimit <- Transact_gasLimit toAddress data ;;
  gasPrice <- Transact_gasPrice gasPrice ;;
  tx <- Transact_newTx nonce toAddress amount gasLimit gasPrice data ;;
  signedTx <- Transact_sign tx privateKey fromAddress toAddress amount
                gasLimit gasPrice data ;;
  ret (fromAddress, nonce, signedTx).

(** Transact, lines 458-485: confirmation of the broadcast transaction. *)
Definition Transact_confirm (fuel : nat) (fromAddress : Address) (nonce : Z)
    (toAddress : option Address) (rpcReturnTx : Hash) : M string :=
  if transferNotCheck opt then ret (Hash_String lib rpcReturnTx)
  else
    rp <- wrapErr "getTxReceipt fail" (getTxReceipt fuel rpcReturnTx 0) ;;
    (if negb (globalOptTerseOutput opt)
        && existsb (fun kv => String.eqb (snd kv) (globalOptNodeUrl opt))
                   (nodeUrlMap opt)
     then emit (Log (LogExplorerUrl rpcReturnTx))
     else ret tt) ;;
    if negb (Status rp =? ReceiptStatusSuccessful) then
      raise (Errorf "tx minted, but status is failed")
    else
      (match toAddress with
       | None => emit (Log (LogContractDeployed
                              (CreateAddress lib fromAddress nonce)))
       | Some _ => ret tt
       end) ;;
      ret (Hash_String lib rpcReturnTx).

(** Transact, lines 449-485: broadcast, hash check and confirmation. *)
Definition Transact_submit (fuel : nat) (fromAddress : Address) (nonce : Z)
    (toAddress : option Address) (signedTx : SignedTx) : M string :=
  rpcReturnTx <- wrapErr "SendRawTransaction fail"
                   (SendRawTransaction signedTx) ;;
  (if Hash_eqb (TxHash lib signedTx) rpcReturnTx then ret tt
   else emit (Log (LogTxNotSame (TxHash lib signedTx) rpcReturnTx))) ;;
  Transact_confirm fuel fromAddress nonce toAddress rpcReturnTx.

(** [Transact] *)
Definition Transact (fuel : nat) (privateKey : PrivateKey)
    (toAddress : option Address) (amount : Z) (gasPrice : option Z)
    (data : list byte) : M string :=
  prepared <- Transact_prepare privateKey toAddress amount gasPrice data ;;
  let '(fromAddress, nonce, signedTx) := prepared in
  if globalOptDryRun opt then
    (* return tx directly, do not broadcast it *)
    ret (Hash_String lib (TxHash lib signedTx))
  else
    Transact_submit fuel fromAddress nonce toAddress signedTx.

End Pipeline.

(** ** Notions the statements use *)

Definition is_byte (b : byte) : Prop := 0 <= b < 256.

(** [bs] right-aligned in [n] bytes, zero bytes in front. *)
Definition left_pad (n : nat) (bs : list byte) : list byte :=
  repeat 0 (n - length bs) ++ bs.

(** A decimal amount written with the digits [ip] before and [fp] after the
    point (no point when [fp] is empty), and the number it denotes. *)
Definition is_digit (d : Z) : Prop := 0 <= d <= 9.

Definition digit_char (d : Z) : ascii := ascii_of_nat (Z.to_nat (48 + d)).

Fixpoint digits_string (ds : list Z) : string :=
  match ds with
  | [] => EmptyString
  | d :: ds' => String (digit_char d) (digits_string ds')
  end.

Definition digits_value (ds : list Z) : Z :=
  fold_left (fun acc d => acc * 10 + d) ds 0.

Definition amount_string (ip fp : list Z) : string :=
  match fp with
  | [] => digits_string ip
  | _ => (digits_string ip ++ String "." (digits_string fp))%string
  end.

Definition amount_value (ip fp : list Z) : Q :=
  (inject_Z (digits_value ip)
   + inject_Z (digits_value fp) / inject_Z (10 ^ len fp))%Q.

(** The priority fee as the claim words it: the mean of the 50th-percentile
    reward over the three most recent blocks, the last three rows of the
    history. *)
Definition mid_reward_mean_most_recent3 (feeHistory : FeeHistory) : option Z :=
  match rev (Reward feeHistory) with
  | r3 :: r2 :: r1 :: _ =>
      match nth_error r1 1, nth_error r2 1, nth_error r3 1 with
      | Some a, Some b, Some c => Some ((a + b + c) / 3)
      | _, _, _ => None
      end
  | _ => None
  end.

(** Events of a kind. *)
Definition is_Sleep (ev : Event) : bool :=
  match ev with Sleep _ => true | _ => false end.

Definition not_FeeHistory (ev : Event) : Prop :=
  match ev with CallFeeHistory _ _ => False | _ => True end.

Definition not_broadcast_or_poll (ev : Event) : Prop :=
  match ev with
  | CallSendRawTransaction _ => False
  | CallTransactionReceipt _ => False
  | Sleep _ => False
  | _ => True
  end.

Definition polls_only (h : Hash) (ev : Event) : Prop :=
  match ev with
  | CallTransactionReceipt h' => h' = h
  | _ => True
  end.

(** [w'] continues [w] by events that all satisfy [P]. *)
Definition extends (P : Event -> Prop) (w w' : World) : Prop :=
  exists evs, trace w' = trace w ++ evs /\ Forall P evs.

(** Every run of [m] adds only events that satisfy [P]. *)
Definition emits {A : Type} (P : Event -> Prop) (m : M A) : Prop :=
  forall w, extends P w (snd (m w)).

(** ** A concrete node, library and option set, for evaluating the model *)

Module Sample.

Definition lib : Lib := {|
  PubkeyToAddress := fun key => [key mod 256];
  SignTx := fun tx chainID key =>
              Success (mkSignedTx tx (35 + 2 * chainID) (key + 1) (key + 2));
  TxHash := fun stx => [Gas (stx_tx stx) mod 256; stx_v stx mod 256];
  MarshalBinary := fun stx => Success [2; stx_v stx mod 256];
  hexutil_Encode := fun bs =>
    String "0" (String "x" (digits_string (map (fun b => b mod 10) bs)));
  HexToHash := fun s => [len (list_ascii_of_string s)];
  Hash_String := fun h => digits_string (map (fun b => b mod 10) h);
  CreateAddress := fun a nonce => nonce :: a
|}.

(** The fee history of the comment in Transact (mainnet, 4 blocks). *)
Definition feeHistory : FeeHistory := {|
  OldestBlock := 0xffc0a9;
  Reward := [ [0x6b51f67; 0x3b9aca00; 0x106853ddd8];
              [0xa9970dc; 0x1dcd6500; 0x10abffd64];
              [0x6190547; 0x1dcd6500; 0x9becf3d3c];
              [0x94a104a; 0x1dcd6500; 0x1032d8cdb] ];
  BaseFeePerGas := [0x4ed3ef336; 0x4d2c282cd; 0x4db586991; 0x4d8275e8e;
                    0x4b5fb0a47]
|}.

Definition receipt : Receipt := {| Status := ReceiptStatusSuccessful |}.

(** A node whose receipt lookups take one second each and miss [misses]
    times before the receipt is there. *)
Definition node (misses : nat) : Node := {|
  PendingNonceAt := fun _ => Success 7;
  CodeAt := fun a => Success a;
  getGasPrice := Success 30000000000;
  eth_feeHistory := fun _ _ => Success feeHistory;
  BlockByNumber := Success {| BaseFee := Some 0x4d8275e8e |};
  NetworkID := Success 1;
  EstimateGas := fun _ => Success 21000;
  eth_sendRawTransaction := fun _ => Success [1; 2; 3];
  TransactionReceipt := fun n _ =>
    (Second, if (n <? misses)%nat then Failure NotFound else Success receipt)
|}.

Definition options : Options := {|
  globalOptNonce := -1;
  globalOptGasLimit := 0;
  gasUsedByTransferEth := 21000;
  globalOptTxType := "eip1559";
  txTypeEip1559 := "eip1559";
  globalOptMaxPriorityFeePerGas := "";
  globalOptMaxFeePerGas := "";
  globalOptShowRawTx := false;
  globalOptShowEstimateGas := false;
  globalOptDryRun := false;
  transferNotCheck := false;
  globalOptTerseOutput := false;
  globalOptNodeUrl := "";
  nodeUrlMap := []
|}.

Definition with_fees (tip cap : string) (o : Options) : Options :=
  mkOptions (globalOptNonce o) (globalOptGasLimit o) (gasUsedByTransferEth o)
    (globalOptTxType o) (txTypeEip1559 o) tip cap
    (globalOptShowRawTx o) (globalOptShowEstimateGas o) (globalOptDryRun o)
    (transferNotCheck o) (globalOptTerseOutput o) (globalOptNodeUrl o)
    (nodeUrlMap o).

Definition with_dryRun (o : Options) : Options :=
  mkOptions (globalOptNonce o) (globalOptGasLimit o) (gasUsedByTransferEth o)
    (globalOptTxType o) (txTypeEip1559 o)
    (globalOptMaxPriorityFeePerGas o) (globalOptMaxFeePerGas o)
    (globalOptShowRawTx o) (globalOptShowEstimateGas o) true
    (transferNotCheck o) (globalOptTerseOutput o) (globalOptNodeUrl o)
    (nodeUrlMap o).

Definition with_gasLimit (g : Z) (o : Options) : Options :=
  mkOptions (globalOptNonce o) g (gasUsedByTransferEth o)
    (globalOptTxType o) (txTypeEip1559 o)
    (globalOptMaxPriorityFeePerGas o) (globalOptMaxFeePerGas o)
    (globalOptShowRawTx o) (globalOptShowEstimateGas o) (globalOptDryRun o)
    (transferNotCheck o) (globalOptTerseOutput o) (globalOptNodeUrl o)
    (nodeUrlMap o).

Definition world0 : World := mkWorld 0 0 [].

End Sample.

(** The time [n] consecutive receipt lookups take, from lookup number
    [start] on. *)
Fixpoint total_latency (node : Node) (h : Hash) (start n : nat) : Z :=
  match n with
  | O => 0
  | S n' =>
      fst (TransactionReceipt node start h) + total_latency node h (S start) n'
  end.

(** [ip.fp] is an exact gwei amount: decimal digits, at least one before
    the point and at most nine after it, so that it is a whole number of
    wei. *)
Definition exact_gwei (ip fp : list Z) : Prop :=
  Forall is_digit ip /\ ip <> [] /\ Forall is_digit fp /\ len fp <= 9.

(** Every normal return of [m] satisfies [Q]. *)
Definition yields {A : Type} (Q : A -> Prop) (m : M A) : Prop :=
  forall w a, fst (m w) = Ok a -> Q a.

(** ** String helpers of common.go *)

(** [contains]: whether [arr] contains [str]. *)
Fixpoint contains (arr : list string) (str : string) : bool :=
  match arr with
  | [] => false
  | a :: arr' => if String.eqb a str then true else contains arr' str
  end.

(** [has0xPrefix]: [len(str) >= 2 && str[0] == '0' &&
    (str[1] == 'x' || str[1] == 'X')]. *)
Definition has0xPrefix (str : string) : bool :=
  match str with
  | String c0 (String c1 _) =>
      Ascii.eqb c0 "0" && (Ascii.eqb c1 "x" || Ascii.eqb c1 "X")
  | _ => false
  end.

(** [s[n:]], for [n] within the string. *)
Fixpoint string_drop (n : nat) (s : string) : string :=
  match n, s with
  | S n', String _ s' => string_drop n' s'
  | _, _ => s
  end.

(** encoding/hex, as far as the package uses it. *)
Module hex.

Inductive Error : Type :=
| ErrLength
| InvalidByteError (c : ascii).

(** The value of a hexadecimal digit, of either case. *)
Definition fromHexChar (c : ascii) : option Z :=
  let n := Z.of_nat (nat_of_ascii c) in
  if (48 <=? n) && (n <=? 57) then Some (n - 48)
  else if (97 <=? n) && (n <=? 102) then Some (n - 97 + 10)
  else if (65 <=? n) && (n <=? 70) then Some (n - 65 + 10)
  else None.

(** [hex.DecodeString]: two digits a byte; the first bad digit is reported,
    and an odd length when all digits are good. *)
Fixpoint DecodeString (s : string) : Error + list byte :=
  match s with
  | EmptyString => inr []
  | String a EmptyString =>
      match fromHexChar a with
      | None => inl (InvalidByteError a)
      | Some _ => inl ErrLength
      end
  | String a (String b rest) =>
      match fromHexChar a with
      | None => inl (InvalidByteError a)
      | Some p =>
          match fromHexChar b with
          | None => inl (InvalidByteError b)
          | Some q =>
              match DecodeString rest with
              | inl e => inl e
              | inr bs => inr (p * 16 + q :: bs)
              end
          end
      end
  end.

Definition hextable (n : Z) : ascii :=
  if n <? 10 then ascii_of_nat (Z.to_nat (48 + n))
  else ascii_of_nat (Z.to_nat (97 + n - 10)).

(** [hex.EncodeToString]: two lower-case digits a byte. *)
Fixpoint EncodeToString (src : list byte) : string :=
  match src with
  | [] => EmptyString
  | v :: src' =>
      String (hextable (Z.shiftr v 4))
        (String (hextable (Z.land v 15)) (EncodeToString src'))
  end.

End hex.

(** [hexutil.Encode]: the lower-case digits behind "0x". *)
Definition hexutil_Encode_0x (b : list byte) : string :=
  String "0" (String "x" (hex.EncodeToString b)).

(** [isValidHexString]: a valid hex string, or the empty string. *)
Definition isValidHexString (str : string) : bool :=
  if is_empty str then true
  else
    let hexWithout0x := if has0xPrefix str then string_drop 2 str else str in
    match hex.DecodeString hexWithout0x with
    | inl _ => false
    | inr _ => true
    end.

(** The regular expressions the package compiles, and whether one matches
    a string from its first to its last character. *)
Module regexp.

Inductive Regexp : Type :=
| Lit (s : string)                          (* the characters of s *)
| Class (ranges : list (ascii * ascii))     (* [a-b...] *)
| Cat (r1 r2 : Regexp)                      (* r1 r2 *)
| Quest (r : Regexp)                        (* r? *)
| Repeat (n : nat) (r : Regexp).            (* r{n} *)

Fixpoint strip_prefix (p s : string) : option string :=
  match p, s with
  | EmptyString, _ => Some s
  | String a p', String b s' =>
      if Ascii.eqb a b then strip_prefix p' s' else None
  | String _ _, EmptyString => None
  end.

Definition in_ranges (c : ascii) (ranges : list (ascii * ascii)) : bool :=
  existsb (fun r => (nat_of_ascii (fst r) <=? nat_of_ascii c)%nat
                    && (nat_of_ascii c <=? nat_of_ascii (snd r))%nat) ranges.

(** [accept r s k]: some prefix of [s] matches [r] and [k] accepts the
    rest. *)
Fixpoint accept (r : Regexp) (s : string) (k : string -> bool) : bool :=
  match r with
  | Lit l =>
      match strip_prefix l s with
      | Some rest => k rest
      | None => false
      end
  | Class ranges =>
      match s with
      | String c rest => in_ranges c ranges && k rest
      | EmptyString => false
      end
  | Cat r1 r2 => accept r1 s (fun rest => accept r2 rest k)
  | Quest r1 => accept r1 s k || k s
  | Repeat n r1 =>
      (fix rep (n : nat) (s : string) : bool :=
         match n with
         | O => k s
         | S n' => accept r1 s (rep n')
         end) n s
  end.

(** [MatchString] for a pattern written between [^] and [$]. *)
Definition MatchString (r : Regexp) (s : string) : bool :=
  accept r s is_empty.

End regexp.

(** [ethAddressRE = regexp.MustCompile("^(0x)?[0-9a-fA-F]{40}$")] *)
Definition ethAddressRE : regexp.Regexp :=
  regexp.Cat (regexp.Quest (regexp.Lit "0x"))
    (regexp.Repeat 40
       (regexp.Class [("0", "9"); ("a", "f"); ("A", "F")]%char)).

(** [isValidEthAddress] *)
Definition isValidEthAddress (v : string) : bool :=
  regexp.MatchString ethAddressRE v.

(** A string of hexadecimal digits of either case. *)
Definition is_hex_digit (c : ascii) : bool :=
  match String.index 0 (String c EmptyString) "0123456789abcdefABCDEF" with
  | Some _ => true
  | None => false
  end.

Fixpoint all_hex (s : string) : bool :=
  match s with
  | EmptyString => true
  | String c s' => is_hex_digit c && all_hex s'
  end.

(** The events of [K] lookups of [h] that miss, each followed by the wait. *)
Fixpoint miss_events (h : Hash) (K : nat) : list Event :=
  match K with
  | O => []
  | S K' =>
      [CallTransactionReceipt h; Log (LogTxNotFound h); Log (LogRecheck h);
       Sleep (Second * 5)] ++ miss_events h K'
  end.

Definition is_timeout_error {A : Type} (r : Res A) : bool :=
  match r with
  | Err (Errorf msg) => String.eqb msg "GetReceipt timeout"
  | _ => false
  end.

Definition not_poll (ev : Event) : Prop :=
  match ev with
  | CallTransactionReceipt _ => False
  | Sleep _ => False
  | _ => True
  end.

(** Variations of the sample node and options, for evaluating the model on
    failing replies. *)
Module Cases.

Definition with_receipts (f : nat -> Hash -> Z * Reply Receipt) (n : Node)
  : Node :=
  mkNode (PendingNonceAt n) (CodeAt n) (getGasPrice n) (eth_feeHistory n)
    (BlockByNumber n) (NetworkID n) (EstimateGas n)
    (eth_sendRawTransaction n) f.

Definition with_getGasPrice (r : Reply Z) (n : Node) : Node :=
  mkNode (PendingNonceAt n) (CodeAt n) r (eth_feeHistory n)
    (BlockByNumber n) (NetworkID n) (EstimateGas n)
    (eth_sendRawTransaction n) (TransactionReceipt n).

Definition with_CodeAt (f : Address -> Reply (list byte)) (n : Node) : Node :=
  mkNode (PendingNonceAt n) f (getGasPrice n) (eth_feeHistory n)
    (BlockByNumber n) (NetworkID n) (EstimateGas n)
    (eth_sendRawTransaction n) (TransactionReceipt n).

Definition with_feeHistory (r : Reply FeeHistory) (n : Node) : Node :=
  mkNode (PendingNonceAt n) (CodeAt n) (getGasPrice n) (fun _ _ => r)
    (BlockByNumber n) (NetworkID n) (EstimateGas n)
    (eth_sendRawTransaction n) (TransactionReceipt n).

Definition with_EstimateGas (r : Reply Z) (n : Node) : Node :=
  mkNode (PendingNonceAt n) (CodeAt n) (getGasPrice n) (eth_feeHistory n)
    (BlockByNumber n) (NetworkID n) (fun _ => r)
    (eth_sendRawTransaction n) (TransactionReceipt n).

Definition with_send (r : Reply (list byte)) (n : Node) : Node :=
  mkNode (PendingNonceAt n) (CodeAt n) (getGasPrice n) (eth_feeHistory n)
    (BlockByNumber n) (NetworkID n) (EstimateGas n)
    (fun _ => r) (TransactionReceipt n).

Definition with_NetworkID (r : Reply Z) (n : Node) : Node :=
  mkNode (PendingNonceAt n) (CodeAt n) (getGasPrice n) (eth_feeHistory n)
    (BlockByNumber n) r (EstimateGas n)
    (eth_sendRawTransaction n) (TransactionReceipt n).

Definition with_MarshalBinary (f : SignedTx -> Reply (list byte)) (l : Lib)
  : Lib :=
  mkLib (PubkeyToAddress l) (SignTx l) (TxHash l) f (hexutil_Encode l)
    (HexToHash l) (Hash_String l) (CreateAddress l).

(** A node whose receipt lookups miss [misses] times and then fail. *)
Definition node_lookup_fails (misses : nat) : Node :=
  with_receipts
    (fun n _ => (Second, if (n <? misses)%nat then Failure NotFound
                         else Failure (RpcError "connection reset")))
    (Sample.node 0).

(** A node that has the receipt of a reverted transaction. *)
Definition node_reverted (misses : nat) : Node :=
  with_receipts
    (fun n _ => (Second, if (n <? misses)%nat then Failure NotFound
                         else Success {| Status := 0 |}))
    (Sample.node 0).

(** Legacy transaction with nonce, gas limit and (as an argument of
    Transact) gas price all given by the caller. *)
Definition legacy_overrides : Options := {|
  globalOptNonce := 5;
  globalOptGasLimit := 21000;
  gasUsedByTransferEth := 21000;
  globalOptTxType := "legacy";
  txTypeEip1559 := "eip1559";
  globalOptMaxPriorityFeePerGas := "";
  globalOptMaxFeePerGas := "";
  globalOptShowRawTx := false;
  globalOptShowEstimateGas := false;
  globalOptDryRun := false;
  transferNotCheck := false;
  globalOptTerseOutput := false;
  globalOptNodeUrl := "";
  nodeUrlMap := []
|}.

Definition with_flags (showEstimateGas notCheck : bool) (o : Options)
  : Options :=
  mkOptions (globalOptNonce o) (globalOptGasLimit o) (gasUsedByTransferEth o)
    (globalOptTxType o) (txTypeEip1559 o)
    (globalOptMaxPriorityFeePerGas o) (globalOptMaxFeePerGas o)
    (globalOptShowRawTx o) showEstimateGas (globalOptDryRun o)
    notCheck (globalOptTerseOutput o) (globalOptNodeUrl o)
    (nodeUrlMap o).

End Cases.

(** ** personalSign (personalsign.go) *)

(** The decimal digits of [n], most significant first, in front of [acc]. *)
Fixpoint decimal_digits (fuel : nat) (n : Z) (acc : list Z) : list Z :=
  match fuel with
  | O => acc
  | S fuel' =>
      if n =? 0 then acc
      else decimal_digits fuel' (n / 10) (n mod 10 :: acc)
  end.

(** [fmt.Sprintf("%d", n)] for the length of a string, [n >= 0]. *)
Definition Sprintf_d (n : Z) : string :=
  if n =? 0 then "0"%string
  else digits_string (decimal_digits (S (Z.to_nat (Z.log2 n))) n []).

(** [[]byte(s)] *)
Definition bytes_of_string (s : string) : list byte :=
  map (fun c => Z.of_nat (nat_of_ascii c)) (list_ascii_of_string s).

(** [s[i] += d] on a byte slice: out of range it panics, in range the byte
    wraps around at 256. *)
Definition add_at (s : list byte) (i : nat) (d : Z) : Res (list byte) :=
  match nth_error s i with
  | None => Panic IndexOutOfRange
  | Some b => Ok (firstn i s ++ [(b + d) mod 256] ++ skipn (S i) s)
  end.

Section PersonalSign.

(** [crypto.Keccak256Hash] and [crypto.Sign] of go-ethereum. *)
Variable Keccak256Hash : list byte -> Hash.
Variable crypto_Sign : Hash -> PrivateKey -> Reply (list byte).

(** The text personalSign hashes: the EIP-191 header, the length of the
    message in decimal, the message. *)
Definition fullMessage (message : string) : string :=
  (String (ascii_of_nat 25) "Ethereum Signed Message:"
   ++ String (ascii_of_nat 10) (Sprintf_d (decimal.strlen message))
   ++ message)%string.

(** [personalSign] *)
Definition personalSign (message : string) (privateKey : PrivateKey)
  : Res string :=
  let hash := Keccak256Hash (bytes_of_string (fullMessage message)) in
  match crypto_Sign hash privateKey with
  | Failure err => Err err
  | Success signatureBytes =>
      res_bind (add_at signatureBytes 64 27) (fun signatureBytes =>
      Ok (hexutil_Encode_0x signatureBytes))
  end.

End PersonalSign.

(** ** Keys and units (common.go) *)

Section Keys.

(** [crypto.HexToECDSA] of go-ethereum. *)
Variable HexToECDSA : string -> Reply PrivateKey.

(** [buildPrivateKeyFromHex]: the leading 0x is optional; checkErr ends the
    process on a key HexToECDSA rejects. *)
Definition buildPrivateKeyFromHex (privateKeyHex : string) : Res PrivateKey :=
  let privateKeyHex :=
    if has0xPrefix privateKeyHex then string_drop 2 privateKeyHex
    else privateKeyHex in
  match HexToECDSA privateKeyHex with
  | Success privateKey => Ok privateKey
  | Failure err => Fatal err
  end.

End Keys.

(** [decimal.NewFromBigInt(value, exp)] *)
Definition NewFromBigInt (value exp : Z) : decimal.Decimal :=
  decimal.mkDecimal value exp.

Section Units.

(** The unit names, constants declared in another file of the package. *)
Variables unitWei unitGwei unitEther : string.

(** [unify2Wei]: converts an amount in [sourceUnit] to wei. *)
Definition unify2Wei (sourceAmt : decimal.Decimal) (sourceUnit : string)
  : Res decimal.Decimal :=
  if String.eqb sourceUnit unitWei then Ok sourceAmt
  else if String.eqb sourceUnit unitGwei then
    decimal.Mul sourceAmt (NewFromBigInt 1 9)
  else if String.eqb sourceUnit unitEther then
    decimal.Mul sourceAmt (NewFromBigInt 1 18)
  else Panic (PanicMsg "unrecognized unit").

End Units.

(** The events of Transact's signing step (lines 412-442): the chain-id
    request, then the optional raw-transaction log and gas simulation. *)
Definition sign_events_of (lib : Lib) (opt : Options) (signedTx : SignedTx)
    (msg : CallMsg) (gas : Z) : list Event :=
  CallNetworkID
    :: (if globalOptShowRawTx opt
        then [Log (LogRawTx match GenRawTx lib signedTx with
                            | Success s => s
                            | Failure _ => EmptyString
                            end)]
        else [])
    ++ (if globalOptShowEstimateGas opt
        then [CallEstimateGas msg; Log (LogEstimateGas gas)]
        else []).


(** * Properties *)

(** ** Machine integers and getRecoveryId *)

Lemma wrap64_id (x : Z) : - 2 ^ 63 <= x < 2 ^ 63 -> wrap64 x = x.
Proof.
  intros H. unfold wrap64.
  rewrite Z.mod_small by lia. lia.
Qed.

Lemma Int64_fits (v : Z) : - 2 ^ 63 < v < 2 ^ 63 -> big.Int64 v = v.
Proof.
  intros H. unfold big.Int64.
  rewrite (Z.mod_small (Z.abs v)) by lia.
  rewrite (wrap64_id (Z.abs v)) by lia.
  destruct (v <? 0) eqn:E.
  - apply Z.ltb_lt in E. rewrite wrap64_id by lia. lia.
  - apply Z.ltb_ge in E. lia.
Qed.

(** Outside the four special values the code returns the remainder of
    [v - 35] by 2 as Go computes it, with the sign of [v - 35]. *)
Lemma getRecoveryId_rem (v : Z) :
  35 - 2 ^ 63 <= v < 2 ^ 63 ->
  v <> 0 -> v <> 1 -> v <> 27 -> v <> 28 ->
  getRecoveryId v = Z.rem (v - 35) 2.
Proof.
  intros H H0 H1 H27 H28. unfold getRecoveryId.
  rewrite Int64_fits by lia.
  replace ((v =? 0) || (v =? 1)) with false
    by (symmetry; apply orb_false_iff; split; apply Z.eqb_neq; lia).
  replace ((v =? 27) || (v =? 28)) with false
    by (symmetry; apply orb_false_iff; split; apply Z.eqb_neq; lia).
  unfold sub64, mul64, div64.
  rewrite (wrap64_id (v - 35)) by lia.
  pose proof (Z.quot_rem' (v - 35) 2) as Hqr.
  assert (Hr : -2 < Z.rem (v - 35) 2 < 2).
  { pose proof (Z.rem_bound_abs (v - 35) 2 ltac:(lia)). lia. }
  rewrite (wrap64_id (Z.quot (v - 35) 2)) by lia.
  rewrite (wrap64_id (2 * Z.quot (v - 35) 2)) by lia.
  rewrite wrap64_id by lia. lia.
Qed.

Lemma getRecoveryId_eip155 (v : Z) :
  35 <= v < 2 ^ 63 -> getRecoveryId v = (v - 35) mod 2.
Proof.
  intros H. rewrite getRecoveryId_rem by lia.
  apply Z.rem_mod_nonneg; lia.
Qed.

(** Below 35 every even [v] other than 0 and 28 gets the recovery id -1. *)
Lemma getRecoveryId_even_below_35 (j : Z) :
  35 - 2 ^ 63 <= 2 * j < 35 -> j <> 0 -> j <> 14 ->
  getRecoveryId (2 * j) = -1.
Proof.
  intros H H0 H14. rewrite getRecoveryId_rem by lia.
  replace (2 * j - 35) with (- (1 + (17 - j) * 2)) by lia.
  rewrite Z.rem_opp_l by lia.
  rewrite Z.rem_mod_nonneg by lia.
  rewrite Z.mod_add by lia. reflexivity.
Qed.

Lemma getRecoveryId_small (v : Z) :
  (v = 0 \/ v = 1 -> getRecoveryId v = v) /\
  (v = 27 \/ v = 28 -> getRecoveryId v = v - 27).
Proof.
  split; intros [-> | ->]; reflexivity.
Qed.

(** Where [v] fits an int64 the code does what C4 says: the recovery id is
    [v] for [v] in {0, 1}, [v - 27] for [v] in {27, 28}, and for [v >= 35]
    it is [v - 35 - 2 * floor ((v - 35) / 2)], which is 0 for
    [v = 35 + 2k] and 1 for [v = 36 + 2k]. *)
Theorem getRecoveryId_cases (v : Z) (Hfit : v < 2 ^ 63) :
  (v = 0 \/ v = 1 -> getRecoveryId v = v) /\
  (v = 27 \/ v = 28 -> getRecoveryId v = v - 27) /\
  (35 <= v ->
     getRecoveryId v = v - 35 - 2 * ((v - 35) / 2) /\
     (forall k, 0 <= k -> v = 35 + 2 * k -> getRecoveryId v = 0) /\
     (forall k, 0 <= k -> v = 36 + 2 * k -> getRecoveryId v = 1)).
Proof.
  split; [apply getRecoveryId_small|].
  split; [apply getRecoveryId_small|].
  intros H35. rewrite getRecoveryId_eip155 by lia.
  pose proof (Z.div_mod (v - 35) 2 ltac:(lia)) as Hdm.
  split; [lia|]. split; intros k Hk ->.
  - replace (35 + 2 * k - 35) with (k * 2) by lia. apply Z.mod_mul. lia.
  - replace (36 + 2 * k - 35) with (1 + k * 2) by lia.
    rewrite Z.mod_add by lia. reflexivity.
Qed.

(** The cases of [getRecoveryId_cases] at 1, 28, 37 and 38. *)
Lemma getRecoveryId_cases_witness :
  getRecoveryId 1 = 1 /\ getRecoveryId 28 = 28 - 27 /\
  getRecoveryId 37 = 0 /\ getRecoveryId 38 = 1.
Proof.
  split; [|split; [|split]].
  - apply (proj1 (getRecoveryId_cases 1 ltac:(lia))). right. reflexivity.
  - apply (proj1 (proj2 (getRecoveryId_cases 28 ltac:(lia)))).
    right. reflexivity.
  - apply (proj1 (proj2 (proj2 (proj2 (getRecoveryId_cases 37 ltac:(lia)))
                           ltac:(lia))) 1); lia.
  - apply (proj2 (proj2 (proj2 (proj2 (getRecoveryId_cases 38 ltac:(lia)))
                           ltac:(lia))) 1); lia.
Defined.

(** C4 fails on the code: for [v = 36 + 2k] with [k = 2^62], an EIP-155
    value that no longer fits an int64, [Int64] yields a negative number,
    the division by 2 rounds toward zero and the result is -1, where C4
    (and the doc comment of getRecoveryId) says 1. *)
Lemma getRecoveryId_eip155_beyond_int64 :
  0 <= 2 ^ 62 /\ getRecoveryId (36 + 2 * 2 ^ 62) = -1 /\
  getRecoveryId (36 + 2 * 2 ^ 62) <> 1.
Proof. split; [lia|]. split; [reflexivity | discriminate]. Qed.

(** ** big.Int.Bytes and the compact signature *)

Lemma be_digits_app (fuel : nat) : forall n acc,
  big.be_digits fuel n acc = big.be_digits fuel n [] ++ acc.
Proof.
  induction fuel as [|fuel IH]; intros n acc; cbn [big.be_digits];
    [reflexivity|].
  destruct (n =? 0); [reflexivity|].
  rewrite (IH (n / 256) (n mod 256 :: acc)).
  rewrite (IH (n / 256) (_ :: nil)).
  rewrite <- app_assoc. reflexivity.
Qed.

Lemma be_digits_bytes (fuel : nat) : forall n acc,
  Forall is_byte acc -> Forall is_byte (big.be_digits fuel n acc).
Proof.
  induction fuel as [|fuel IH]; intros n acc Hacc; cbn [big.be_digits];
    [assumption|].
  destruct (n =? 0); [assumption|].
  apply IH. constructor; [|assumption].
  unfold is_byte. apply Z.mod_pos_bound. lia.
Qed.

Lemma be_value_fold (bs : list byte) : forall a,
  fold_left (fun acc b => acc * 256 + b) bs a
  = a * 256 ^ len bs + big.be_value bs.
Proof.
  unfold big.be_value, len.
  induction bs as [|b bs IH]; intros a; cbn [fold_left].
  - simpl. lia.
  - rewrite (IH (a * 256 + b)), (IH (0 * 256 + b)).
    replace (Z.of_nat (length (b :: bs))) with (Z.succ (Z.of_nat (length bs)))
      by (simpl length; lia).
    rewrite Z.pow_succ_r by lia. ring.
Qed.

Lemma be_value_app (l1 l2 : list byte) :
  big.be_value (l1 ++ l2) = big.be_value l1 * 256 ^ len l2 + big.be_value l2.
Proof.
  unfold big.be_value at 1. rewrite fold_left_app.
  rewrite be_value_fold. reflexivity.
Qed.

Lemma be_digits_value (fuel : nat) : forall n,
  0 <= n < 2 ^ Z.of_nat fuel -> big.be_value (big.be_digits fuel n []) = n.
Proof.
  induction fuel as [|fuel IH]; intros n Hn.
  - simpl in *. unfold big.be_value. simpl. lia.
  - simpl big.be_digits. destruct (n =? 0) eqn:E.
    + apply Z.eqb_eq in E. subst. reflexivity.
    + rewrite be_digits_app, be_value_app.
      rewrite IH.
      * unfold big.be_value, len. simpl.
        pose proof (Z.div_mod n 256 ltac:(lia)). lia.
      * rewrite Nat2Z.inj_succ, Z.pow_succ_r in Hn by lia.
        split; [apply Z.div_pos; lia|].
        apply Z.div_lt_upper_bound; lia.
Qed.

Lemma Bytes_value (x : Z) : big.be_value (big.Bytes x) = Z.abs x.
Proof.
  unfold big.Bytes. apply be_digits_value.
  split; [lia|].
  destruct (Z.eq_dec (Z.abs x) 0) as [E|E].
  - rewrite E. simpl. lia.
  - rewrite Nat2Z.inj_succ, Z2Nat.id by apply Z.log2_nonneg.
    apply Z.log2_spec. lia.
Qed.

Lemma Bytes_are_bytes (x : Z) : Forall is_byte (big.Bytes x).
Proof. apply be_digits_bytes. constructor. Qed.

Lemma be_value_bound (bs : list byte) :
  Forall is_byte bs -> 0 <= big.be_value bs < 256 ^ len bs.
Proof.
  induction bs as [|b bs IH] using rev_ind; intros H.
  - unfold big.be_value, len. simpl. lia.
  - apply Forall_app in H. destruct H as [H1 H2].
    inversion H2 as [|? ? Hb _]; subst.
    specialize (IH H1).
    rewrite be_value_app.
    unfold len in *. rewrite length_app. simpl length.
    replace (Z.of_nat (length bs + 1)) with (Z.succ (Z.of_nat (length bs))) by lia.
    rewrite Z.pow_succ_r by lia.
    change (256 ^ Z.of_nat 1) with 256.
    replace (big.be_value (b :: nil)) with b by (unfold big.be_value; simpl; lia).
    unfold is_byte in Hb. nia.
Qed.


Lemma be_digits_length (fuel : nat) : forall n (k : nat),
  0 <= n < 256 ^ Z.of_nat k -> (length (big.be_digits fuel n []) <= k)%nat.
Proof.
  induction fuel as [|fuel IH]; intros n k Hn; cbn [big.be_digits].
  - simpl. lia.
  - destruct (n =? 0) eqn:E; [simpl; lia|].
    apply Z.eqb_neq in E.
    destruct k as [|k]; [simpl in Hn; lia|].
    rewrite be_digits_app, length_app. simpl length.
    rewrite Nat2Z.inj_succ, Z.pow_succ_r in Hn by lia.
    assert (H : (length (big.be_digits fuel (n / 256) []) <= k)%nat).
    { apply IH. split; [apply Z.div_pos; lia|].
      apply Z.div_lt_upper_bound; lia. }
    lia.
Qed.

Lemma Bytes_length (x : Z) (k : nat) :
  len (big.Bytes x) <= Z.of_nat k <-> Z.abs x < 256 ^ Z.of_nat k.
Proof.
  split; intros H.
  - pose proof (be_value_bound _ (Bytes_are_bytes x)) as Hb.
    rewrite Bytes_value in Hb.
    apply Z.lt_le_trans with (1 := proj2 Hb).
    apply Z.pow_le_mono_r; lia.
  - unfold len, big.Bytes. apply Nat2Z.inj_le, be_digits_length. lia.
Qed.

Lemma firstn_zeros (k n : nat) :
  (k <= n)%nat -> firstn k (repeat 0 n) = repeat 0 k.
Proof.
  revert n. induction k as [|k IH]; intros n H; [reflexivity|].
  destruct n as [|n]; [lia|]. simpl. f_equal. apply IH. lia.
Qed.

Lemma copy_from_pad (bs : list byte) :
  len bs <= 32 ->
  copy_from (make 32) (32 - len bs) bs = Ok (left_pad 32 bs).
Proof.
  intros H. unfold copy_from, make, left_pad, len in *.
  rewrite repeat_length.
  replace (32 - Z.of_nat (length bs) <? 0) with false
    by (symmetry; apply Z.ltb_ge; lia).
  replace (Z.of_nat (Z.to_nat 32) <? 32 - Z.of_nat (length bs)) with false
    by (symmetry; apply Z.ltb_ge; lia).
  cbn [orb].
  replace (Z.to_nat (32 - Z.of_nat (length bs))) with (32 - length bs)%nat by lia.
  replace (Z.to_nat 32) with 32%nat by reflexivity.
  replace (Nat.min (32 - (32 - length bs)) (length bs)) with (length bs) by lia.
  rewrite firstn_all.
  rewrite skipn_all2 by (rewrite repeat_length; lia).
  rewrite app_nil_r. f_equal. f_equal.
  apply firstn_zeros. lia.
Qed.

Lemma copy_from_long (bs : list byte) :
  32 < len bs -> copy_from (make 32) (32 - len bs) bs = Panic SliceBounds.
Proof.
  intros H. unfold copy_from.
  replace (32 - len bs <? 0) with true by (symmetry; apply Z.ltb_lt; lia).
  reflexivity.
Qed.

Lemma left_pad_length (n : nat) (bs : list byte) :
  (length bs <= n)%nat -> length (left_pad n bs) = n.
Proof. intros H. unfold left_pad. rewrite length_app, repeat_length. lia. Qed.

Lemma be_value_zeros (k : nat) : big.be_value (repeat 0 k) = 0.
Proof.
  induction k as [|k IH]; [reflexivity|].
  change (repeat 0 (S k)) with ([0] ++ repeat 0 k).
  rewrite be_value_app, IH. unfold big.be_value. simpl. lia.
Qed.

Lemma left_pad_value (n : nat) (bs : list byte) :
  big.be_value (left_pad n bs) = big.be_value bs.
Proof.
  unfold left_pad. rewrite be_value_app, be_value_zeros. lia.
Qed.

Lemma buildECDSASignature_ok (v r s : Z) :
  len (big.Bytes r) <= 32 -> len (big.Bytes s) <= 32 ->
  buildECDSASignature v r s
  = Ok ((left_pad 32 (big.Bytes r) ++ left_pad 32 (big.Bytes s))
          ++ [byte_of_int (getRecoveryId v)]).
Proof.
  intros Hr Hs. unfold buildECDSASignature.
  rewrite (copy_from_pad _ Hr), (copy_from_pad _ Hs). reflexivity.
Qed.

(** What holds of the layout for every [v]: when the big-endian encodings
    of [r] and [s] have at most 32 bytes, buildECDSASignature returns 65
    bytes, [r] right-aligned behind zero bytes in bytes [0, 32), [s]
    likewise in bytes [32, 64), and as the final byte what getRecoveryId
    returns for [v], converted to a byte. *)
Theorem buildECDSASignature_layout (v r s : Z)
    (Hr : len (big.Bytes r) <= 32) (Hs : len (big.Bytes s) <= 32) :
  exists sig,
    buildECDSASignature v r s = Ok sig /\
    length sig = 65%nat /\
    firstn 32 sig = left_pad 32 (big.Bytes r) /\
    firstn 32 (skipn 32 sig) = left_pad 32 (big.Bytes s) /\
    skipn 64 sig = [byte_of_int (getRecoveryId v)] /\
    big.be_value (firstn 32 sig) = Z.abs r /\
    big.be_value (firstn 32 (skipn 32 sig)) = Z.abs s /\
    (0 <= getRecoveryId v < 256 -> nth_error sig 64 = Some (getRecoveryId v)).
Proof.
  eexists. split; [apply buildECDSASignature_ok; assumption|].
  assert (Lr : length (left_pad 32 (big.Bytes r)) = 32%nat)
    by (apply left_pad_length; unfold len in Hr; lia).
  assert (Ls : length (left_pad 32 (big.Bytes s)) = 32%nat)
    by (apply left_pad_length; unfold len in Hs; lia).
  assert (F1 : firstn 32 ((left_pad 32 (big.Bytes r) ++ left_pad 32 (big.Bytes s))
                  ++ [byte_of_int (getRecoveryId v)]) = left_pad 32 (big.Bytes r)).
  { rewrite <- app_assoc. rewrite firstn_app, Lr.
    rewrite firstn_all2 by lia. simpl. apply app_nil_r. }
  assert (S1 : skipn 32 ((left_pad 32 (big.Bytes r) ++ left_pad 32 (big.Bytes s))
                  ++ [byte_of_int (getRecoveryId v)])
               = left_pad 32 (big.Bytes s) ++ [byte_of_int (getRecoveryId v)]).
  { rewrite <- app_assoc. rewrite skipn_app, Lr.
    rewrite skipn_all2 by lia. reflexivity. }
  assert (F2 : firstn 32 (left_pad 32 (big.Bytes s) ++ [byte_of_int (getRecoveryId v)])
               = left_pad 32 (big.Bytes s)).
  { rewrite firstn_app, Ls. rewrite firstn_all2 by lia. simpl. apply app_nil_r. }
  assert (S2 : skipn 64 ((left_pad 32 (big.Bytes r) ++ left_pad 32 (big.Bytes s))
                  ++ [byte_of_int (getRecoveryId v)])
               = [byte_of_int (getRecoveryId v)]).
  { rewrite skipn_app. rewrite length_app, Lr, Ls.
    rewrite skipn_all2 by (rewrite length_app; lia). reflexivity. }
  rewrite F1, S1, F2, S2.
  repeat split.
  - rewrite !length_app, Lr, Ls. reflexivity.
  - rewrite left_pad_value. apply Bytes_value.
  - rewrite left_pad_value. apply Bytes_value.
  - intros Hid. rewrite nth_error_app2 by (rewrite length_app; lia).
    rewrite length_app, Lr, Ls. simpl. unfold byte_of_int.
    rewrite Z.mod_small by lia. reflexivity.
Qed.

(** [buildECDSASignature_layout] at v = 28, r = 258, s = 3. *)
Lemma buildECDSASignature_layout_witness :
  exists sig, buildECDSASignature 28 258 3 = Ok sig /\ length sig = 65%nat.
Proof.
  destruct (buildECDSASignature_layout 28 258 3) as [sig [H1 [H2 _]]].
  - vm_compute. discriminate.
  - vm_compute. discriminate.
  - exists sig. split; assumption.
Defined.

(** C5 fails on the code: for [v = 2], [r = s = 1] the signature has 65
    bytes with [r] and [s] right-aligned, but getRecoveryId returns -1 and
    the final byte is 255, which is neither that number nor a recovery
    id. *)
Theorem buildECDSASignature_final_byte_255 :
  getRecoveryId 2 = -1 /\
  exists sig,
    buildECDSASignature 2 1 1 = Ok sig /\
    length sig = 65%nat /\
    firstn 32 sig = left_pad 32 (big.Bytes 1) /\
    firstn 32 (skipn 32 sig) = left_pad 32 (big.Bytes 1) /\
    nth_error sig 64 = Some 255 /\
    nth_error sig 64 <> Some (getRecoveryId 2) /\
    ~ In 255 [0; 1].
Proof.
  split; [reflexivity|]. eexists. split; [reflexivity|].
  repeat split; try discriminate.
  intros [H|[H|[]]]; discriminate.
Qed.

(** C10.  If the encoding of [r] or of [s] is longer than 32 bytes,
    buildECDSASignature, and with it RecoverPubkey, panics on the slice
    bounds; if both have at most 32 bytes, buildECDSASignature returns a
    signature and RecoverPubkey hands it to Ecrecover. *)
Theorem buildECDSASignature_panic_iff_long
    (Ecrecover : list byte -> list byte -> Res (list byte))
    (v r s : Z) (msg : list byte) :
  (32 < len (big.Bytes r) \/ 32 < len (big.Bytes s) ->
     buildECDSASignature v r s = Panic SliceBounds /\
     RecoverPubkey Ecrecover v r s msg = Panic SliceBounds) /\
  (len (big.Bytes r) <= 32 -> len (big.Bytes s) <= 32 ->
     exists sig, buildECDSASignature v r s = Ok sig /\
                 RecoverPubkey Ecrecover v r s msg = Ecrecover msg sig).
Proof.
  split.
  - intros Hlong.
    assert (Hb : buildECDSASignature v r s = Panic SliceBounds).
    { unfold buildECDSASignature.
      destruct (Z_lt_le_dec 32 (len (big.Bytes r))) as [Hr|Hr].
      - rewrite (copy_from_long _ Hr). reflexivity.
      - rewrite (copy_from_pad _ Hr). cbn [res_bind].
        destruct Hlong as [Hl|Hl]; [lia|].
        rewrite (copy_from_long _ Hl). reflexivity. }
    split; [exact Hb|]. unfold RecoverPubkey. rewrite Hb. reflexivity.
  - intros Hr Hs. eexists. split.
    + apply buildECDSASignature_ok; assumption.
    + unfold RecoverPubkey. rewrite (buildECDSASignature_ok v r s Hr Hs).
      reflexivity.
Qed.

(** [buildECDSASignature_panic_iff_long] at r = 2^256 (33 bytes) and at
    r = 2^256 - 1 (32 bytes). *)
Lemma buildECDSASignature_panic_iff_long_witness :
  buildECDSASignature 28 (2 ^ 256) 1 = Panic SliceBounds /\
  exists sig, buildECDSASignature 28 (2 ^ 256 - 1) 1 = Ok sig.
Proof.
  split.
  - apply (proj1 (buildECDSASignature_panic_iff_long
                    (fun _ sig => Ok sig) 28 (2 ^ 256) 1 [])).
    left. vm_compute. reflexivity.
  - destruct (proj2 (buildECDSASignature_panic_iff_long
                       (fun _ sig => Ok sig) 28 (2 ^ 256 - 1) 1 []))
      as [sig [H _]].
    + vm_compute. discriminate.
    + vm_compute. discriminate.
    + exists sig. exact H.
Defined.

(** C3 fails on the code: at [v = 2] the division by 2 rounds toward zero
    and the recovery id is -1, outside {0, 1}; the signature built from it
    ends in the byte 255. *)
Theorem getRecoveryId_minus_one_at_2 :
  getRecoveryId 2 = -1 /\
  ~ In (getRecoveryId 2) [0; 1] /\
  exists sig, buildECDSASignature 2 1 1 = Ok sig /\ nth_error sig 64 = Some 255.
Proof.
  split; [reflexivity|]. split.
  - intros [H|[H|[]]]; discriminate.
  - eexists. split; reflexivity.
Qed.

(** ** Receipt polling *)

Section Receipts.

Variable node : Node.

Lemma recheck_found (fuel : nat) (h : Hash) (timeout beginTime : Z)
    (w : World) (rp : Receipt) :
  snd (TransactionReceipt node (lookups w) h) = Success rp ->
  recheck node (S fuel) h timeout beginTime w
  = (Ok rp, mkWorld (now w + fst (TransactionReceipt node (lookups w) h))
                    (S (lookups w))
                    (trace w ++ [CallTransactionReceipt h])).
Proof.
  intros H. cbn [recheck]. unfold bind at 1, client_TransactionReceipt.
  destruct (TransactionReceipt node (lookups w) h) as [lat reply].
  simpl in H. subst reply. reflexivity.
Qed.

Lemma recheck_miss (fuel : nat) (h : Hash) (timeout beginTime : Z) (w : World) :
  snd (TransactionReceipt node (lookups w) h) = Failure NotFound ->
  recheck node (S fuel) h timeout beginTime w
  = let t := now w + fst (TransactionReceipt node (lookups w) h) in
    let tr := (trace w ++ [CallTransactionReceipt h]) ++ [Log (LogTxNotFound h)] in
    if (0 <? timeout) && (t <? beginTime + timeout) then
      (Err (Errorf "GetReceipt timeout"), mkWorld t (S (lookups w)) tr)
    else
      recheck node fuel h timeout beginTime
        (mkWorld (t + Second * 5) (S (lookups w))
                 ((tr ++ [Log (LogRecheck h)]) ++ [Sleep (Second * 5)])).
Proof.
  intros H. cbn [recheck]. unfold bind at 1, client_TransactionReceipt.
  destruct (TransactionReceipt node (lookups w) h) as [lat reply].
  simpl in H. subst reply. cbn [is_NotFound fst].
  unfold bind, emit, time_Now, time_Sleep, raise. cbn [now lookups trace].
  destruct ((0 <? timeout) && (now w + lat <? beginTime + timeout));
    reflexivity.
Qed.

Lemma recheck_unbounded (h : Hash) (rp : Receipt) (beginTime : Z) :
  forall (K fuel : nat) (w : World),
    (K < fuel)%nat ->
    (forall i, (i < K)%nat ->
       snd (TransactionReceipt node (lookups w + i) h) = Failure NotFound) ->
    snd (TransactionReceipt node (lookups w + K) h) = Success rp ->
    exists evs,
      recheck node fuel h 0 beginTime w
      = (Ok rp,
         mkWorld (now w + total_latency node h (lookups w) (S K)
                  + Z.of_nat K * (Second * 5))
                 (lookups w + S K) (trace w ++ evs)) /\
      filter is_Sleep evs = repeat (Sleep (Second * 5)) K /\
      Forall (polls_only h) evs.
Proof.
  induction K as [|K IH]; intros fuel w Hfuel Hmiss Hhit.
  - destruct fuel as [|fuel]; [lia|].
    rewrite Nat.add_0_r in Hhit.
    exists [CallTransactionReceipt h]. split; [|split].
    + rewrite (recheck_found _ _ _ _ _ _ Hhit). cbn [total_latency].
      f_equal. f_equal; lia.
    + reflexivity.
    + repeat constructor.
  - destruct fuel as [|fuel]; [lia|].
    assert (H0 : snd (TransactionReceipt node (lookups w) h) = Failure NotFound).
    { specialize (Hmiss 0%nat ltac:(lia)). rewrite Nat.add_0_r in Hmiss.
      exact Hmiss. }
    rewrite (recheck_miss _ _ _ _ _ H0). cbn zeta. cbn [andb Z.ltb Z.compare].
    match goal with
    | |- context [recheck node fuel h 0 beginTime ?w1] =>
        destruct (IH fuel w1) as [evs [Hrun [Hsl Hpoll]]]
    end.
    + lia.
    + cbn [lookups]. intros i Hi.
      replace (S (lookups w) + i)%nat with (lookups w + S i)%nat by lia.
      apply Hmiss. lia.
    + cbn [lookups].
      replace (S (lookups w) + K)%nat with (lookups w + S K)%nat by lia.
      exact Hhit.
    + exists ([CallTransactionReceipt h; Log (LogTxNotFound h);
               Log (LogRecheck h); Sleep (Second * 5)] ++ evs).
      split; [|split].
      * rewrite Hrun. cbn [now lookups trace].
        f_equal. f_equal.
        -- change (total_latency node h (lookups w) (S (S K)))
             with (fst (TransactionReceipt node (lookups w) h)
                   + total_latency node h (S (lookups w)) (S K)).
           lia.
        -- lia.
        -- rewrite <- !app_assoc. reflexivity.
      * cbn [app filter is_Sleep]. rewrite Hsl. reflexivity.
      * apply Forall_app. split; [repeat constructor | exact Hpoll].
Qed.

(** Without a timeout, [K] misses followed by a receipt give that receipt
    after exactly [K] waits of five seconds. *)
Lemma getTxReceipt_unbounded (h : Hash) (rp : Receipt) (K fuel : nat)
    (w : World) :
  (K < fuel)%nat ->
  (forall i, (i < K)%nat ->
     snd (TransactionReceipt node (lookups w + i) h) = Failure NotFound) ->
  snd (TransactionReceipt node (lookups w + K) h) = Success rp ->
  exists evs,
    getTxReceipt node fuel h 0 w
    = (Ok rp,
       mkWorld (now w + total_latency node h (lookups w) (S K)
                + Z.of_nat K * (Second * 5))
               (lookups w + S K) (trace w ++ evs)) /\
    filter is_Sleep evs = repeat (Sleep (Second * 5)) K.
Proof.
  intros Hfuel Hmiss Hhit.
  destruct (recheck_unbounded h rp (now w) K fuel w Hfuel Hmiss Hhit)
    as [evs [Hrun [Hsl _]]].
  exists evs. split; [|exact Hsl].
  unfold getTxReceipt, bind, time_Now. exact Hrun.
Qed.
(** With a positive timeout, a first lookup that misses before the deadline
    is reported as a timeout at once. *)
Lemma getTxReceipt_early_timeout (fuel : nat) (h : Hash) (timeout : Z)
    (w : World) :
  0 < timeout ->
  snd (TransactionReceipt node (lookups w) h) = Failure NotFound ->
  fst (TransactionReceipt node (lookups w) h) < timeout ->
  getTxReceipt node (S fuel) h timeout w
  = (Err (Errorf "GetReceipt timeout"),
     mkWorld (now w + fst (TransactionReceipt node (lookups w) h))
             (S (lookups w))
             ((trace w ++ [CallTransactionReceipt h])
                ++ [Log (LogTxNotFound h)])).
Proof.
  intros HT Hmiss Hlat. unfold getTxReceipt, bind at 1, time_Now.
  rewrite (recheck_miss _ _ _ _ _ Hmiss). cbn zeta.
  replace (0 <? timeout) with true by (symmetry; apply Z.ltb_lt; lia).
  replace (now w + fst (TransactionReceipt node (lookups w) h)
           <? now w + timeout) with true by (symmetry; apply Z.ltb_lt; lia).
  reflexivity.
Qed.

(** With a positive timeout that has run out when the first lookup misses,
    the loop never reports a timeout: it polls for as long as lookups miss. *)
Lemma recheck_past_deadline (h : Hash) (timeout beginTime : Z) :
  (forall n, snd (TransactionReceipt node n h) = Failure NotFound) ->
  (forall n, 0 <= fst (TransactionReceipt node n h)) ->
  forall (fuel : nat) (w : World),
    beginTime + timeout <= now w + fst (TransactionReceipt node (lookups w) h) ->
    fst (recheck node fuel h timeout beginTime w) = OutOfFuel.
Proof.
  intros Hmiss Hlat. induction fuel as [|fuel IH]; intros w Hpast.
  - reflexivity.
  - rewrite (recheck_miss _ _ _ _ _ (Hmiss _)). cbn zeta.
    replace (now w + fst (TransactionReceipt node (lookups w) h)
             <? beginTime + timeout) with false
      by (symmetry; apply Z.ltb_ge; lia).
    rewrite andb_false_r. apply IH. cbn [now lookups].
    pose proof (Hlat (S (lookups w))). unfold Second. lia.
Qed.

End Receipts.

(** C2 fails on the code: with a timeout of 60 seconds and a node that
    answers each lookup after one second, missing three times, getTxReceipt
    reports a timeout after the first miss, one second in; polling without
    a timeout finds the receipt after three waits, 19 seconds in. *)
Theorem getTxReceipt_timeout_before_deadline :
  getTxReceipt (Sample.node 3) 10 [1] (60 * Second) Sample.world0
  = (Err (Errorf "GetReceipt timeout"),
     mkWorld (1 * Second) 1
       [CallTransactionReceipt [1]; Log (LogTxNotFound [1])]) /\
  fst (getTxReceipt (Sample.node 3) 10 [1] 0 Sample.world0)
  = Ok Sample.receipt /\
  now (snd (getTxReceipt (Sample.node 3) 10 [1] 0 Sample.world0))
  = 19 * Second.
Proof. repeat split. Qed.

(** ** Events of a run *)

Section Emits.

Variable P : Event -> Prop.

Lemma extends_refl (w : World) : extends P w w.
Proof. exists []. split; [symmetry; apply app_nil_r | constructor]. Qed.

Lemma extends_trans (w1 w2 w3 : World) :
  extends P w1 w2 -> extends P w2 w3 -> extends P w1 w3.
Proof.
  intros [e1 [H1 F1]] [e2 [H2 F2]]. exists (e1 ++ e2). split.
  - rewrite H2, H1. symmetry. apply app_assoc.
  - apply Forall_app. split; assumption.
Qed.

Lemma extends_one (w : World) (t : Z) (n : nat) (ev : Event) :
  P ev -> extends P w (mkWorld t n (trace w ++ [ev])).
Proof. intros H. exists [ev]. split; [reflexivity | repeat constructor; exact H]. Qed.

Lemma emits_ret {A : Type} (a : A) : emits P (ret a).
Proof. intros w. apply extends_refl. Qed.

Lemma emits_raise {A : Type} (e : Error) : emits P (@raise A e).
Proof. intros w. apply extends_refl. Qed.

Lemma emits_panic {A : Type} (p : PanicKind) : emits P (@panic A p).
Proof. intros w. apply extends_refl. Qed.

Lemma emits_out_of_fuel {A : Type} : emits P (@out_of_fuel A).
Proof. intros w. apply extends_refl. Qed.

Lemma emits_pure_res {A : Type} (r : Res A) : emits P (pure_res r).
Proof. intros w. apply extends_refl. Qed.

Lemma emits_time_Now : emits P time_Now.
Proof. intros w. apply extends_refl. Qed.

Lemma emits_of_reply {A : Type} (r : Reply A) : emits P (of_reply r).
Proof. destruct r; [apply emits_ret | apply emits_raise]. Qed.

Lemma emits_emit (ev : Event) : P ev -> emits P (emit ev).
Proof. intros H w. apply extends_one, H. Qed.

Lemma emits_time_Sleep (d : Z) : P (Sleep d) -> emits P (time_Sleep d).
Proof. intros H w. apply extends_one, H. Qed.

Lemma emits_bind {A B : Type} (m : M A) (k : A -> M B) :
  emits P m -> (forall a, emits P (k a)) -> emits P (bind m k).
Proof.
  intros Hm Hk w. specialize (Hm w). unfold bind.
  destruct (m w) as [[a|e|e|p|] w1]; cbn [snd] in *; try exact Hm.
  apply extends_trans with (1 := Hm). apply Hk.
Qed.

Lemma emits_checkErr {A : Type} (m : M A) : emits P m -> emits P (checkErr m).
Proof.
  intros Hm w. specialize (Hm w). unfold checkErr.
  destruct (m w) as [[a|e|e|p|] w1]; exact Hm.
Qed.

Lemma emits_wrapErr {A : Type} (ctx : string) (m : M A) :
  emits P m -> emits P (wrapErr ctx m).
Proof.
  intros Hm w. specialize (Hm w). unfold wrapErr.
  destruct (m w) as [[a|e|e|p|] w1]; exact Hm.
Qed.

Lemma emits_call {A : Type} (ev : Event) (r : Reply A) :
  P ev -> emits P (call ev r).
Proof.
  intros H. unfold call. apply emits_bind.
  - apply emits_emit, H.
  - intros _. apply emits_of_reply.
Qed.

Lemma emits_client_TransactionReceipt (node : Node) (h : Hash) :
  P (CallTransactionReceipt h) -> emits P (client_TransactionReceipt node h).
Proof.
  intros H w. unfold client_TransactionReceipt.
  destruct (TransactionReceipt node (lookups w) h) as [lat reply].
  apply extends_one, H.
Qed.

End Emits.

Ltac emits_step :=
  lazymatch goal with
  | |- emits _ (bind _ _) => apply emits_bind; [|intros ?]
  | |- emits _ (ret _) => apply emits_ret
  | |- emits _ (raise _) => apply emits_raise
  | |- emits _ (panic _) => apply emits_panic
  | |- emits _ out_of_fuel => apply emits_out_of_fuel
  | |- emits _ (pure_res _) => apply emits_pure_res
  | |- emits _ time_Now => apply emits_time_Now
  | |- emits _ (of_reply _) => apply emits_of_reply
  | |- emits _ (checkErr _) => apply emits_checkErr
  | |- emits _ (wrapErr _ _) => apply emits_wrapErr
  | |- emits _ (call _ _) => apply emits_call; first [exact I | reflexivity]
  | |- emits _ (emit _) => apply emits_emit; first [exact I | reflexivity]
  | |- emits _ (time_Sleep _) =>
      apply emits_time_Sleep; first [exact I | reflexivity]
  | |- emits _ (client_TransactionReceipt _ _) =>
      apply emits_client_TransactionReceipt; first [exact I | reflexivity]
  | |- emits _ (if ?b then _ else _) => destruct b
  | |- emits _ (match ?x with _ => _ end) => destruct x
  end.

Ltac emits_auto := repeat emits_step.

Section EmitsPipeline.

Variable lib : Lib.
Variable node : Node.
Variable opt : Options.
Variable P : Event -> Prop.

Lemma emits_recheck (h : Hash) (timeout beginTime : Z) :
  P (CallTransactionReceipt h) ->
  (forall m, P (Log m)) -> (forall d, P (Sleep d)) ->
  forall fuel, emits P (recheck node fuel h timeout beginTime).
Proof.
  intros Hcall Hlog Hsleep. induction fuel as [|fuel IH]; cbn [recheck].
  - apply emits_out_of_fuel.
  - apply emits_bind.
    + apply emits_client_TransactionReceipt, Hcall.
    + intros [rp|err]; [apply emits_ret|].
      destruct (is_NotFound err); [|apply emits_raise].
      apply emits_bind; [apply emits_emit, Hlog|intros _].
      apply emits_bind; [apply emits_time_Now|intros t].
      destruct ((0 <? timeout) && (t <? beginTime + timeout));
        [apply emits_raise|].
      apply emits_bind; [apply emits_emit, Hlog|intros _].
      apply emits_bind; [apply emits_time_Sleep, Hsleep|intros _].
      exact IH.
Qed.

Lemma emits_getTxReceipt (h : Hash) (timeout : Z) (fuel : nat) :
  P (CallTransactionReceipt h) ->
  (forall m, P (Log m)) -> (forall d, P (Sleep d)) ->
  emits P (getTxReceipt node fuel h timeout).
Proof.
  intros Hcall Hlog Hsleep. unfold getTxReceipt.
  apply emits_bind; [apply emits_time_Now|intros t].
  apply emits_recheck; assumption.
Qed.

End EmitsPipeline.

(** ** Gas limit *)

(** Evaluates a call to the node whose reply is known. *)
Lemma call_success {A : Type} (ev : Event) (r : Reply A) (a : A) (w : World) :
  r = Success a ->
  call ev r w = (Ok a, mkWorld (now w) (lookups w) (trace w ++ [ev])).
Proof. intros ->. reflexivity. Qed.

Section GasLimit.

Variable node : Node.
Variable opt : Options.

(** C6.  A non-zero gas-limit override is used as it is, without a probe.
    Without one: no destination gives 7,000,000; a destination whose code
    at the latest block is empty, with an empty payload, gives the
    transfer default; a destination with non-empty code, or any non-empty
    payload, gives 900,000. *)
Theorem Transact_gasLimit_selection
    (toAddress : option Address) (data : list byte) (w : World) :
  (globalOptGasLimit opt <> 0 ->
     Transact_gasLimit node opt toAddress data w
     = (Ok (globalOptGasLimit opt), w)) /\
  (globalOptGasLimit opt = 0 -> toAddress = None ->
     Transact_gasLimit node opt toAddress data w = (Ok 7000000, w)) /\
  (forall to code,
     globalOptGasLimit opt = 0 -> toAddress = Some to ->
     CodeAt node to = Success code ->
     let probed := mkWorld (now w) (lookups w) (trace w ++ [CallCodeAt to]) in
     (code = [] -> data = [] ->
        Transact_gasLimit node opt toAddress data w
        = (Ok (uint64 (gasUsedByTransferEth opt)), probed)) /\
     (code <> [] \/ data <> [] ->
        Transact_gasLimit node opt toAddress data w = (Ok 900000, probed))).
Proof.
  split; [|split].
  - intros H. unfold Transact_gasLimit.
    replace (globalOptGasLimit opt =? 0) with false
      by (symmetry; apply Z.eqb_neq; exact H).
    reflexivity.
  - intros H ->. unfold Transact_gasLimit. rewrite H. reflexivity.
  - intros to code H -> Hcode probed.
    assert (Hrun : Transact_gasLimit node opt (Some to) data w
              = (Ok (if 0 <? len data then 900000
                     else if 0 <? len code then 900000
                     else uint64 (gasUsedByTransferEth opt)), probed)).
    { unfold Transact_gasLimit. rewrite H. cbn [Z.eqb].
      unfold bind, wrapErr, isContractAddress, bind.
      rewrite (call_success _ _ _ _ Hcode). unfold ret. reflexivity. }
    rewrite Hrun. split.
    + intros -> ->. reflexivity.
    + intros [Hc|Hd].
      * destruct code as [|c code]; [congruence|].
        replace (0 <? len (c :: code)) with true
          by (symmetry; apply Z.ltb_lt; unfold len; simpl length; lia).
        destruct (0 <? len data); reflexivity.
      * destruct data as [|d data]; [congruence|].
        replace (0 <? len (d :: data)) with true
          by (symmetry; apply Z.ltb_lt; unfold len; simpl length; lia).
        reflexivity.
Qed.

(** The transaction Transact builds carries the gas limit it was given. *)
Lemma Transact_newTx_Gas (nonce : Z) (toAddress : option Address)
    (amount gasLimit gasPrice : Z) (data : list byte) (w w' : World) (tx : Tx) :
  Transact_newTx node opt nonce toAddress amount gasLimit gasPrice data w
  = (Ok tx, w') ->
  Gas tx = gasLimit.
Proof.
  unfold Transact_newTx.
  destruct (String.eqb (globalOptTxType opt) (txTypeEip1559 opt)).
  - unfold bind. destruct (Transact_feeCaps node opt w) as [[caps|e|e|p|] w1];
      try discriminate.
    unfold ret. intros H. inversion H. reflexivity.
  - unfold ret. intros H. inversion H. reflexivity.
Qed.

End GasLimit.

(** The four cases of [Transact_gasLimit_selection] on the sample node. *)
Lemma Transact_gasLimit_selection_witness :
  Transact_gasLimit (Sample.node 0) (Sample.with_gasLimit 21000 Sample.options)
    (Some [1]) [] Sample.world0 = (Ok 21000, Sample.world0) /\
  Transact_gasLimit (Sample.node 0) Sample.options None [] Sample.world0
  = (Ok 7000000, Sample.world0) /\
  Transact_gasLimit (Sample.node 0) Sample.options (Some []) [] Sample.world0
  = (Ok 21000, mkWorld 0 0 [CallCodeAt []]) /\
  Transact_gasLimit (Sample.node 0) Sample.options (Some [1]) [] Sample.world0
  = (Ok 900000, mkWorld 0 0 [CallCodeAt [1]]).
Proof.
  split; [|split; [|split]].
  - apply (proj1 (Transact_gasLimit_selection (Sample.node 0)
             (Sample.with_gasLimit 21000 Sample.options)
             (Some [1]) [] Sample.world0)).
    discriminate.
  - apply (proj1 (proj2 (Transact_gasLimit_selection (Sample.node 0)
             Sample.options None [] Sample.world0)));
      reflexivity.
  - apply (proj2 (proj2 (Transact_gasLimit_selection (Sample.node 0)
             Sample.options (Some []) [] Sample.world0)) [] []);
      reflexivity.
  - apply (proj2 (proj2 (Transact_gasLimit_selection (Sample.node 0)
             Sample.options (Some [1]) [] Sample.world0)) [1] [1]);
      try reflexivity.
    left. discriminate.
Defined.

(** ** Fee estimate *)

Section Fees.

Variable node : Node.
Variable opt : Options.

Lemma reward_mean_rows (fh : FeeHistory) (j : nat) (r0 r1 r2 : list Z)
    (rest : list (list Z)) (a b c : Z) (w : World) :
  Reward fh = r0 :: r1 :: r2 :: rest ->
  nth_error r0 j = Some a -> nth_error r1 j = Some b ->
  nth_error r2 j = Some c ->
  reward_mean fh j w = (Ok ((a + b + c) / 3), w).
Proof.
  intros HR H0 H1 H2. unfold reward_mean, bind, Reward_at.
  rewrite HR. cbn [nth_error]. rewrite H0, H1, H2. reflexivity.
Qed.

Lemma Transact_feeEstimate_rows (fh : FeeHistory) (blk : Block) (base : Z)
    (l0 m0 h0 l1 m1 h1 l2 m2 h2 : Z) (t0 t1 t2 : list Z)
    (rest : list (list Z)) (w : World) :
  eth_feeHistory node 4 [5; 50; 95] = Success fh ->
  Reward fh = (l0 :: m0 :: h0 :: t0) :: (l1 :: m1 :: h1 :: t1)
                :: (l2 :: m2 :: h2 :: t2) :: rest ->
  BlockByNumber node = Success blk ->
  BaseFee blk = Some base ->
  Transact_feeEstimate node w
  = (Ok ((m0 + m1 + m2) / 3, base + (m0 + m1 + m2) / 3),
     mkWorld (now w) (lookups w)
             (trace w ++ [CallFeeHistory 4 [5; 50; 95]; CallBlockByNumber])).
Proof.
  intros Hfh HR Hblk Hbase. unfold Transact_feeEstimate.
  unfold bind at 1, checkErr at 1.
  rewrite (call_success _ _ _ _ Hfh).
  unfold bind at 1.
  rewrite (reward_mean_rows fh 0 _ _ _ _ l0 l1 l2 _ HR) by reflexivity.
  unfold bind at 1.
  rewrite (reward_mean_rows fh 1 _ _ _ _ m0 m1 m2 _ HR) by reflexivity.
  unfold bind at 1.
  rewrite (reward_mean_rows fh 2 _ _ _ _ h0 h1 h2 _ HR) by reflexivity.
  unfold bind at 1, checkErr at 1.
  rewrite (call_success _ _ _ _ Hblk).
  rewrite Hbase. unfold ret. cbn [now lookups trace].
  rewrite <- app_assoc. reflexivity.
Qed.

(** C1 (amended).  With neither fee override supplied, the dynamic-fee
    transaction gets as priority fee the mean (integer division by 3) of
    the 50th-percentile rewards of the first three rows of the 4-block fee
    history, which are its three oldest blocks, and as max fee the latest
    block's base fee plus that priority fee. *)
Theorem Transact_fee_estimate_first_three_blocks
    (fh : FeeHistory) (blk : Block) (base : Z)
    (l0 m0 h0 l1 m1 h1 l2 m2 h2 : Z) (t0 t1 t2 : list Z)
    (rest : list (list Z))
    (nonce : Z) (toAddress : option Address) (amount gasLimit gasPrice : Z)
    (data : list byte) (w : World)
    (Htype : globalOptTxType opt = txTypeEip1559 opt)
    (Htip : globalOptMaxPriorityFeePerGas opt = EmptyString)
    (Hcap : globalOptMaxFeePerGas opt = EmptyString)
    (Hfh : eth_feeHistory node 4 [5; 50; 95] = Success fh)
    (Hrows : Reward fh = (l0 :: m0 :: h0 :: t0) :: (l1 :: m1 :: h1 :: t1)
                           :: (l2 :: m2 :: h2 :: t2) :: rest)
    (Hblk : BlockByNumber node = Success blk)
    (Hbase : BaseFee blk = Some base) :
  let priorityFee := (m0 + m1 + m2) / 3 in
  Transact_newTx node opt nonce toAddress amount gasLimit gasPrice data w
  = (Ok (DynamicFeeTx nonce toAddress amount gasLimit
           priorityFee (base + priorityFee) data),
     mkWorld (now w) (lookups w)
             (trace w ++ [CallFeeHistory 4 [5; 50; 95]; CallBlockByNumber])).
Proof.
  intros priorityFee. unfold Transact_newTx.
  rewrite Htype, String.eqb_refl.
  unfold bind at 1, Transact_feeCaps. rewrite Htip, Hcap. cbn [is_empty orb].
  unfold bind at 1.
  rewrite (Transact_feeEstimate_rows fh blk base l0 m0 h0 l1 m1 h1 l2 m2 h2
             t0 t1 t2 rest w Hfh Hrows Hblk Hbase).
  reflexivity.
Qed.

End Fees.

(** [Transact_fee_estimate_first_three_blocks] on the sample node. *)
Lemma Transact_fee_estimate_first_three_blocks_witness :
  Transact_newTx (Sample.node 0) Sample.options 7 None 0 7000000 1 []
    Sample.world0
  = (Ok (DynamicFeeTx 7 None 0 7000000 666666666 (0x4d8275e8e + 666666666) []),
     mkWorld 0 0 [CallFeeHistory 4 [5; 50; 95]; CallBlockByNumber]).
Proof.
  exact (Transact_fee_estimate_first_three_blocks (Sample.node 0)
           Sample.options Sample.feeHistory {| BaseFee := Some 0x4d8275e8e |}
           0x4d8275e8e
           0x6b51f67 0x3b9aca00 0x106853ddd8
           0xa9970dc 0x1dcd6500 0x10abffd64
           0x6190547 0x1dcd6500 0x9becf3d3c
           [] [] [] [[0x94a104a; 0x1dcd6500; 0x1032d8cdb]]
           7 None 0 7000000 1 [] Sample.world0
           eq_refl eq_refl eq_refl eq_refl eq_refl eq_refl eq_refl).
Defined.

(** C1 as stated fails: on the fee history of the comment in Transact the
    priority fee is the mean over the three oldest blocks, 666666666, and
    not the mean over the three most recent ones, 500000000. *)
Lemma Transact_priority_fee_not_most_recent3 :
  mid_reward_mean_most_recent3 Sample.feeHistory = Some 500000000 /\
  exists cap w',
    Transact_feeCaps (Sample.node 0) Sample.options Sample.world0
    = (Ok (666666666, cap), w') /\
    Some 666666666 <> mid_reward_mean_most_recent3 Sample.feeHistory.
Proof.
  split; [reflexivity|].
  eexists. eexists. split; [vm_compute; reflexivity|].
  vm_compute. discriminate.
Qed.

(** ** Dry run and broadcast *)

Section Results.

Lemma yields_ret {A : Type} (Q : A -> Prop) (a : A) : Q a -> yields Q (ret a).
Proof. intros H w a' E. inversion E. subst. exact H. Qed.

Lemma yields_raise {A : Type} (Q : A -> Prop) (e : Error) : yields Q (raise e).
Proof. intros w a E. discriminate. Qed.

Lemma yields_bind {A B : Type} (Q : B -> Prop) (m : M A) (k : A -> M B) :
  (forall a, yields Q (k a)) -> yields Q (bind m k).
Proof.
  intros Hk w b. unfold bind.
  destruct (m w) as [[a|e|e|p|] w1]; cbn [fst]; try discriminate.
  apply Hk.
Qed.

End Results.

Section TransactRuns.

Variable lib : Lib.
Variable node : Node.
Variable opt : Options.

Lemma emits_prepare_no_broadcast (privateKey : PrivateKey)
    (toAddress : option Address) (amount : Z) (gasPrice : option Z)
    (data : list byte) :
  emits not_broadcast_or_poll
    (Transact_prepare lib node opt privateKey toAddress amount gasPrice data).
Proof.
  unfold Transact_prepare, Transact_nonce, Transact_gasLimit,
    Transact_gasPrice, Transact_newTx, Transact_feeCaps, Transact_feeEstimate,
    Transact_sign, isContractAddress, reward_mean, Reward_at.
  emits_auto.
Qed.

(** A signing step that returns did ask the node for the chain id and
    returns what SignTx made of the transaction with that chain id. *)
Lemma Transact_sign_inv (tx : Tx) (privateKey : PrivateKey)
    (fromAddress : Address) (toAddress : option Address)
    (amount gasLimit gasPrice : Z) (data : list byte) (w w' : World)
    (signedTx : SignedTx) :
  Transact_sign lib node opt tx privateKey fromAddress toAddress amount
    gasLimit gasPrice data w = (Ok signedTx, w') ->
  exists chainID gas,
    NetworkID node = Success chainID /\
    SignTx lib tx chainID privateKey = Success signedTx /\
    w' = mkWorld (now w) (lookups w)
           (trace w ++ sign_events_of lib opt signedTx
                         (mkCallMsg fromAddress toAddress gasLimit gasPrice
                            amount data) gas).
Proof.
  unfold Transact_sign, sign_events_of, bind, wrapErr, call, bind, emit,
    of_reply, ret, raise.
  destruct (NetworkID node) as [chainID|e]; [|discriminate].
  cbn [now lookups trace].
  destruct (SignTx lib tx chainID privateKey) as [stx|e] eqn:Hsign;
    [|discriminate].
  destruct (globalOptShowRawTx opt), (globalOptShowEstimateGas opt);
    cbn [now lookups trace];
    try (destruct (EstimateGas node _) as [gas|e]; [|discriminate]);
    cbn [now lookups trace]; intros H; inversion H; subst;
    first [exists chainID, gas | exists chainID, 0];
    (split; [reflexivity|]); (split; [exact Hsign|]);
    rewrite <- ?app_assoc; reflexivity.
Qed.

(** The signing step on a node that answers. *)
Lemma Transact_sign_run (tx : Tx) (privateKey : PrivateKey)
    (fromAddress : Address) (toAddress : option Address)
    (amount gasLimit gasPrice : Z) (data : list byte) (w : World)
    (chainID gas : Z) (signedTx : SignedTx) :
  NetworkID node = Success chainID ->
  SignTx lib tx chainID privateKey = Success signedTx ->
  (globalOptShowEstimateGas opt = true ->
   EstimateGas node
     (mkCallMsg fromAddress toAddress gasLimit gasPrice amount data)
   = Success gas) ->
  Transact_sign lib node opt tx privateKey fromAddress toAddress amount
    gasLimit gasPrice data w
  = (Ok signedTx,
     mkWorld (now w) (lookups w)
       (trace w ++ sign_events_of lib opt signedTx
                     (mkCallMsg fromAddress toAddress gasLimit gasPrice
                        amount data) gas)).
Proof.
  intros Hid Hsign Hgas.
  unfold Transact_sign, sign_events_of, bind, wrapErr, call, bind, emit,
    of_reply, ret, raise.
  rewrite Hid. cbn [now lookups trace]. rewrite Hsign.
  destruct (globalOptShowRawTx opt), (globalOptShowEstimateGas opt);
    cbn [now lookups trace]; try rewrite (Hgas eq_refl);
    cbn [now lookups trace]; rewrite <- ?app_assoc; reflexivity.
Qed.

(** What a returning Transact_prepare went through. *)
Lemma Transact_prepare_inv (privateKey : PrivateKey)
    (toAddress : option Address) (amount : Z) (gasPrice : option Z)
    (data : list byte) (w w' : World) (fromAddress : Address) (nonce : Z)
    (signedTx : SignedTx) :
  Transact_prepare lib node opt privateKey toAddress amount gasPrice data w
  = (Ok (fromAddress, nonce, signedTx), w') ->
  exists gasLimit gasPrice' tx w1 w2 w3 w4,
    fromAddress = PubkeyToAddress lib privateKey /\
    Transact_nonce node opt fromAddress w = (Ok nonce, w1) /\
    Transact_gasLimit node opt toAddress data w1 = (Ok gasLimit, w2) /\
    Transact_gasPrice node gasPrice w2 = (Ok gasPrice', w3) /\
    Transact_newTx node opt nonce toAddress amount gasLimit gasPrice' data w3
    = (Ok tx, w4) /\
    Transact_sign lib node opt tx privateKey fromAddress toAddress amount
      gasLimit gasPrice' data w4 = (Ok signedTx, w').
Proof.
  unfold Transact_prepare, bind.
  destruct (Transact_nonce node opt (PubkeyToAddress lib privateKey) w)
    as [[nonce0|e|e|p|] w1] eqn:H1; try discriminate.
  destruct (Transact_gasLimit node opt toAddress data w1)
    as [[gasLimit|e|e|p|] w2] eqn:H2; try discriminate.
  destruct (Transact_gasPrice node gasPrice w2)
    as [[gasPrice'|e|e|p|] w3] eqn:H3; try discriminate.
  destruct (Transact_newTx node opt nonce0 toAddress amount gasLimit
              gasPrice' data w3) as [[tx|e|e|p|] w4] eqn:H4; try discriminate.
  destruct (Transact_sign lib node opt tx privateKey
              (PubkeyToAddress lib privateKey) toAddress amount gasLimit
              gasPrice' data w4) as [[stx|e|e|p|] w5] eqn:Hsign;
    try discriminate.
  unfold ret. intros H. inversion H. subst.
  exists gasLimit, gasPrice', tx, w1, w2, w3, w4.
  repeat (split; [first [reflexivity | assumption]|]). exact Hsign.
Qed.

(** C9.  In dry-run mode a run of Transact makes no raw-transaction send,
    no receipt lookup and no wait.  It stops after signing: when it
    returns, it has asked the node for the chain id, SignTx has signed the
    transaction Transact built with that chain id, the result is the hash
    computed locally from that signed transaction, and the last events of
    the run are those of the signing step; and on a node that answers,
    where SignTx succeeds, it does return that hash. *)
Theorem Transact_dry_run (fuel : nat) (privateKey : PrivateKey)
    (toAddress : option Address) (amount : Z) (gasPrice : option Z)
    (data : list byte) (w : World)
    (Hdry : globalOptDryRun opt = true) :
  let run := Transact lib node opt fuel privateKey toAddress amount gasPrice
               data w in
  let fromAddress := PubkeyToAddress lib privateKey in
  extends not_broadcast_or_poll w (snd run) /\
  (forall fromAddress nonce signedTx w1,
     Transact_prepare lib node opt privateKey toAddress amount gasPrice data w
     = (Ok (fromAddress, nonce, signedTx), w1) ->
     run = (Ok (Hash_String lib (TxHash lib signedTx)), w1)) /\
  (forall s, fst run = Ok s ->
     exists fromAddress nonce signedTx w1,
       Transact_prepare lib node opt privateKey toAddress amount gasPrice
         data w = (Ok (fromAddress, nonce, signedTx), w1) /\
       s = Hash_String lib (TxHash lib signedTx)) /\
  (forall s, fst run = Ok s ->
     exists nonce gasLimit gasPrice' tx chainID gas signedTx w1 w2 w3 w4,
       Transact_nonce node opt fromAddress w = (Ok nonce, w1) /\
       Transact_gasLimit node opt toAddress data w1 = (Ok gasLimit, w2) /\
       Transact_gasPrice node gasPrice w2 = (Ok gasPrice', w3) /\
       Transact_newTx node opt nonce toAddress amount gasLimit gasPrice'
         data w3 = (Ok tx, w4) /\
       NetworkID node = Success chainID /\
       SignTx lib tx chainID privateKey = Success signedTx /\
       s = Hash_String lib (TxHash lib signedTx) /\
       snd run
       = mkWorld (now w4) (lookups w4)
           (trace w4 ++ sign_events_of lib opt signedTx
                          (mkCallMsg fromAddress toAddress gasLimit gasPrice'
                             amount data) gas)) /\
  (forall nonce gasLimit gasPrice' tx chainID gas signedTx w1 w2 w3 w4,
     Transact_nonce node opt fromAddress w = (Ok nonce, w1) ->
     Transact_gasLimit node opt toAddress data w1 = (Ok gasLimit, w2) ->
     Transact_gasPrice node gasPrice w2 = (Ok gasPrice', w3) ->
     Transact_newTx node opt nonce toAddress amount gasLimit gasPrice' data w3
     = (Ok tx, w4) ->
     NetworkID node = Success chainID ->
     SignTx lib tx chainID privateKey = Success signedTx ->
     (globalOptShowEstimateGas opt = true ->
      EstimateGas node
        (mkCallMsg fromAddress toAddress gasLimit gasPrice' amount data)
      = Success gas) ->
     run
     = (Ok (Hash_String lib (TxHash lib signedTx)),
        mkWorld (now w4) (lookups w4)
          (trace w4 ++ sign_events_of lib opt signedTx
                         (mkCallMsg fromAddress toAddress gasLimit gasPrice'
                            amount data) gas))).
Proof.
  intros run fromAddress.
  assert (Hemits : emits not_broadcast_or_poll
            (Transact lib node opt fuel privateKey toAddress amount gasPrice data)).
  { unfold Transact. apply emits_bind.
    - apply emits_prepare_no_broadcast.
    - intros [[from nonce] signedTx]. rewrite Hdry. apply emits_ret. }
  split; [apply Hemits|].
  assert (Hok : forall from nonce signedTx w1,
            Transact_prepare lib node opt privateKey toAddress amount gasPrice
              data w = (Ok (from, nonce, signedTx), w1) ->
            run = (Ok (Hash_String lib (TxHash lib signedTx)), w1)).
  { intros from nonce signedTx w1 Hprep. subst run.
    unfold Transact, bind. rewrite Hprep, Hdry. reflexivity. }
  assert (Hinv : forall s, fst run = Ok s ->
            exists from nonce signedTx w1,
              Transact_prepare lib node opt privateKey toAddress amount
                gasPrice data w = (Ok (from, nonce, signedTx), w1) /\
              s = Hash_String lib (TxHash lib signedTx)).
  { intros s. subst run. unfold Transact, bind.
    destruct (Transact_prepare lib node opt privateKey toAddress amount
                gasPrice data w) as [[[[from nonce] signedTx]|e|e|p|] w1];
      cbn [fst]; try discriminate.
    rewrite Hdry. unfold ret. cbn [fst]. intros E. inversion E.
    exists from, nonce, signedTx, w1. split; reflexivity. }
  split; [exact Hok|]. split; [exact Hinv|]. split.
  - intros s Hs. destruct (Hinv s Hs) as [from [nonce [stx [w1 [Hprep ->]]]]].
    destruct (Transact_prepare_inv _ _ _ _ _ _ _ _ _ _ Hprep)
      as [gasLimit [gasPrice' [tx [v1 [v2 [v3 [v4 [Hfrom [H1 [H2 [H3
            [Hnew Hsign]]]]]]]]]]]].
    destruct (Transact_sign_inv _ _ _ _ _ _ _ _ _ _ _ Hsign)
      as [chainID [gas [Hid [Hstx Hw]]]].
    exists nonce, gasLimit, gasPrice', tx, chainID, gas, stx, v1, v2, v3, v4.
    split; [rewrite Hfrom in H1; exact H1|]. split; [exact H2|].
    split; [exact H3|].
    split; [exact Hnew|]. split; [exact Hid|]. split; [exact Hstx|].
    split; [reflexivity|].
    rewrite (Hok _ _ _ _ Hprep). cbn [snd]. rewrite Hw, Hfrom. reflexivity.
  - intros nonce gasLimit gasPrice' tx chainID gas stx w1 w2 w3 w4
      H1 H2 H3 H4 Hid Hstx Hgas.
    apply (Hok fromAddress nonce). unfold Transact_prepare, bind.
    fold fromAddress. rewrite H1, H2, H3, H4.
    rewrite (Transact_sign_run tx privateKey fromAddress toAddress amount
               gasLimit gasPrice' data w4 chainID gas stx Hid Hstx Hgas).
    reflexivity.
Qed.

Lemma SendRawTransaction_sent (signedTx : SignedTx) (rawTx : string)
    (result : list byte) (w : World) :
  GenRawTx lib signedTx = Success rawTx ->
  eth_sendRawTransaction node rawTx = Success result ->
  SendRawTransaction lib node signedTx w
  = (Ok (HexToHash lib (hexutil_Encode lib result)),
     mkWorld (now w) (lookups w) (trace w ++ [CallSendRawTransaction rawTx])).
Proof.
  intros Hraw Hsend. unfold SendRawTransaction, bind at 1.
  rewrite Hraw. cbn [of_reply]. unfold ret at 1. unfold bind at 1.
  rewrite (call_success _ _ _ _ Hsend). reflexivity.
Qed.

Lemma Hash_eqb_neq (a b : Hash) : a <> b -> Hash_eqb a b = false.
Proof.
  intros H. unfold Hash_eqb. destruct (list_eq_dec Z.eq_dec a b); congruence.
Qed.

Lemma yields_Transact_confirm (fuel : nat) (fromAddress : Address) (nonce : Z)
    (toAddress : option Address) (h : Hash) :
  yields (fun s => s = Hash_String lib h)
    (Transact_confirm lib node opt fuel fromAddress nonce toAddress h).
Proof.
  unfold Transact_confirm.
  destruct (transferNotCheck opt); [apply yields_ret; reflexivity|].
  apply yields_bind. intros rp. apply yields_bind. intros _.
  destruct (negb (Status rp =? ReceiptStatusSuccessful));
    [apply yields_raise|].
  apply yields_bind. intros _. apply yields_ret. reflexivity.
Qed.

Lemma emits_Transact_confirm (fuel : nat) (fromAddress : Address) (nonce : Z)
    (toAddress : option Address) (h : Hash) :
  emits (polls_only h)
    (Transact_confirm lib node opt fuel fromAddress nonce toAddress h).
Proof.
  unfold Transact_confirm.
  destruct (transferNotCheck opt); [apply emits_ret|].
  apply emits_bind.
  - apply emits_wrapErr, emits_getTxReceipt;
      [reflexivity | intros m; exact I | intros d; exact I].
  - intros rp. emits_auto.
Qed.

(** A receipt that turns up after [K] misses and reports success confirms
    the transaction. *)
Lemma Transact_confirm_found (fuel K : nat) (fromAddress : Address) (nonce : Z)
    (toAddress : option Address) (h : Hash) (rp : Receipt) (w : World) :
  transferNotCheck opt = false ->
  (K < fuel)%nat ->
  (forall i, (i < K)%nat ->
     snd (TransactionReceipt node (lookups w + i) h) = Failure NotFound) ->
  snd (TransactionReceipt node (lookups w + K) h) = Success rp ->
  Status rp = ReceiptStatusSuccessful ->
  fst (Transact_confirm lib node opt fuel fromAddress nonce toAddress h w)
  = Ok (Hash_String lib h).
Proof.
  intros Hcheck Hfuel Hmiss Hhit Hstatus. unfold Transact_confirm.
  rewrite Hcheck. unfold bind at 1, wrapErr, getTxReceipt, bind at 1, time_Now.
  destruct (recheck_unbounded node h rp (now w) K fuel w Hfuel Hmiss Hhit)
    as [evs [Hrun _]].
  rewrite Hrun. rewrite Hstatus, Z.eqb_refl. cbn [negb].
  unfold bind.
  destruct (negb (globalOptTerseOutput opt)
            && existsb (fun kv => String.eqb (snd kv) (globalOptNodeUrl opt))
                       (nodeUrlMap opt));
    destruct toAddress; reflexivity.
Qed.

(** C8.  When the hash the node returns for the broadcast differs from the
    hash of the signed transaction, Transact logs the warning and goes on
    with the node's hash: every receipt lookup asks for it, every normal
    return is its string, and Transact does return it, at once when
    confirmation is skipped and otherwise as soon as the node has a
    successful receipt. *)
Theorem Transact_node_hash_is_authoritative (fuel : nat)
    (privateKey : PrivateKey) (toAddress : option Address) (amount : Z)
    (gasPrice : option Z) (data : list byte) (w w1 : World)
    (fromAddress : Address) (nonce : Z) (signedTx : SignedTx)
    (rawTx : string) (result : list byte)
    (Hprep : Transact_prepare lib node opt privateKey toAddress amount
               gasPrice data w = (Ok (fromAddress, nonce, signedTx), w1))
    (Hdry : globalOptDryRun opt = false)
    (Hraw : GenRawTx lib signedTx = Success rawTx)
    (Hsend : eth_sendRawTransaction node rawTx = Success result)
    (Hdiff : HexToHash lib (hexutil_Encode lib result) <> TxHash lib signedTx) :
  let nodeHash := HexToHash lib (hexutil_Encode lib result) in
  let warned :=
    mkWorld (now w1) (lookups w1)
      (trace w1 ++ [CallSendRawTransaction rawTx;
                    Log (LogTxNotSame (TxHash lib signedTx) nodeHash)]) in
  let run := Transact lib node opt fuel privateKey toAddress amount gasPrice
               data w in
  run = Transact_confirm lib node opt fuel fromAddress nonce toAddress
          nodeHash warned /\
  extends (polls_only nodeHash) warned (snd run) /\
  (forall s, fst run = Ok s -> s = Hash_String lib nodeHash) /\
  (transferNotCheck opt = true ->
     run = (Ok (Hash_String lib nodeHash), warned)) /\
  (transferNotCheck opt = false ->
     forall (K : nat) (rp : Receipt),
       (K < fuel)%nat ->
       (forall i, (i < K)%nat ->
          snd (TransactionReceipt node (lookups w1 + i) nodeHash)
          = Failure NotFound) ->
       snd (TransactionReceipt node (lookups w1 + K) nodeHash) = Success rp ->
       Status rp = ReceiptStatusSuccessful ->
       fst run = Ok (Hash_String lib nodeHash)).
Proof.
  intros nodeHash warned run.
  assert (Hrun : run = Transact_confirm lib node opt fuel fromAddress nonce
                         toAddress nodeHash warned).
  { subst run nodeHash warned. unfold Transact, bind at 1.
    rewrite Hprep, Hdry.
    unfold Transact_submit, bind at 1, wrapErr.
    rewrite (SendRawTransaction_sent _ _ _ _ Hraw Hsend).
    unfold bind at 1.
    rewrite (Hash_eqb_neq _ _ (not_eq_sym Hdiff)).
    unfold emit. cbn [now lookups trace]. rewrite <- app_assoc. reflexivity. }
  split; [exact Hrun|]. rewrite Hrun.
  split; [apply emits_Transact_confirm|].
  split; [intros s; apply yields_Transact_confirm|].
  split.
  - intros Hnc. unfold Transact_confirm. rewrite Hnc. reflexivity.
  - intros Hcheck K rp Hfuel Hmiss Hhit Hstatus.
    apply (Transact_confirm_found fuel K _ _ _ _ rp warned Hcheck Hfuel);
      assumption.
Qed.

End TransactRuns.

(** [Transact_dry_run] on the sample node. *)
Lemma Transact_dry_run_witness :
  Transact Sample.lib (Sample.node 2) (Sample.with_dryRun Sample.options)
    10 5 (Some [1]) 1 None [] Sample.world0
  = (Ok (Hash_String Sample.lib
           (TxHash Sample.lib
              (mkSignedTx
                 (DynamicFeeTx 7 (Some [1]) 1 900000 666666666
                    (0x4d8275e8e + 666666666) [])
                 37 6 7))),
     mkWorld 0 0
       [CallPendingNonceAt [5]; CallCodeAt [1]; CallGetGasPrice;
        CallFeeHistory 4 [5; 50; 95]; CallBlockByNumber; CallNetworkID]).
Proof.
  refine (proj2 (proj2 (proj2 (proj2
            (Transact_dry_run Sample.lib (Sample.node 2)
               (Sample.with_dryRun Sample.options)
               10 5 (Some [1]) 1 None [] Sample.world0 eq_refl))))
            _ _ _ _ 1 0 _ _ _ _ _
            eq_refl eq_refl eq_refl eq_refl eq_refl eq_refl _).
  discriminate.
Defined.

(** [Transact_node_hash_is_authoritative] on the sample node, whose
    receipt is there at the third lookup. *)
Lemma Transact_node_hash_is_authoritative_witness :
  fst (Transact Sample.lib (Sample.node 2) Sample.options
         10 5 (Some [1]) 1 None [] Sample.world0)
  = Ok (Hash_String Sample.lib [5]).
Proof.
  refine (proj2 (proj2 (proj2 (proj2
            (Transact_node_hash_is_authoritative Sample.lib (Sample.node 2)
               Sample.options 10 5 (Some [1]) 1 None [] Sample.world0
               _ _ _ _ _ [1; 2; 3] eq_refl eq_refl eq_refl eq_refl _))))
            eq_refl 2%nat Sample.receipt _ _ eq_refl eq_refl).
  - discriminate.
  - lia.
  - intros i Hi. destruct i as [|[|i]]; [reflexivity | reflexivity | lia].
Defined.

(** ** Fee overrides *)

Lemma digit_cases (d : Z) :
  is_digit d ->
  d = 0 \/ d = 1 \/ d = 2 \/ d = 3 \/ d = 4 \/ d = 5 \/ d = 6 \/ d = 7
  \/ d = 8 \/ d = 9.
Proof. unfold is_digit. lia. Qed.

Ltac by_digit d H :=
  destruct (digit_cases d H) as [E|[E|[E|[E|[E|[E|[E|[E|[E|E]]]]]]]]];
  subst d; reflexivity.

Lemma digit_of_char (d : Z) :
  is_digit d -> strconv.digit_of (digit_char d) = Some d.
Proof. intros H. by_digit d H. Qed.

Lemma digit_not_E (d : Z) : is_digit d -> decimal.is_E (digit_char d) = false.
Proof. intros H. by_digit d H. Qed.

Lemma digit_not_dot (d : Z) :
  is_digit d -> decimal.is_dot (digit_char d) = false.
Proof. intros H. by_digit d H. Qed.

Lemma digit_not_plus (d : Z) :
  is_digit d -> Ascii.eqb (digit_char d) "+" = false.
Proof. intros H. by_digit d H. Qed.

Lemma digit_not_minus (d : Z) :
  is_digit d -> Ascii.eqb (digit_char d) "-" = false.
Proof. intros H. by_digit d H. Qed.

Lemma parse_digits_string (ds : list Z) : forall acc,
  Forall is_digit ds ->
  strconv.parse_digits (digits_string ds) acc
  = Some (fold_left (fun a d => a * 10 + d) ds acc).
Proof.
  induction ds as [|d ds IH]; intros acc H; [reflexivity|].
  inversion H as [|? ? Hd Hds]; subst.
  cbn [digits_string strconv.parse_digits fold_left].
  rewrite (digit_of_char d Hd). apply IH, Hds.
Qed.

Lemma parse_integer_digits (ds : list Z) :
  Forall is_digit ds -> ds <> [] ->
  strconv.parse_integer (digits_string ds) = Some (digits_value ds).
Proof.
  intros H Hne. destruct ds as [|d ds]; [congruence|].
  inversion H as [|? ? Hd Hds]; subst.
  unfold strconv.parse_integer. cbn [digits_string].
  rewrite (digit_not_plus d Hd), (digit_not_minus d Hd).
  change (String (digit_char d) (digits_string ds))
    with (digits_string (d :: ds)).
  apply parse_digits_string, H.
Qed.

Lemma digits_string_app (a b : list Z) :
  digits_string (a ++ b) = (digits_string a ++ digits_string b)%string.
Proof.
  induction a as [|d a IH]; [reflexivity|].
  cbn [digits_string app String.append]. rewrite IH. reflexivity.
Qed.

Lemma digits_string_length (ds : list Z) :
  decimal.strlen (digits_string ds) = len ds.
Proof.
  unfold decimal.strlen, len. f_equal.
  induction ds as [|d ds IH]; [reflexivity|].
  cbn [digits_string String.length length]. rewrite IH. reflexivity.
Qed.

Lemma digits_value_fold (ds : list Z) : forall acc,
  fold_left (fun a d => a * 10 + d) ds acc
  = acc * 10 ^ len ds + digits_value ds.
Proof.
  unfold digits_value, len.
  induction ds as [|d ds IH]; intros acc; cbn [fold_left].
  - simpl. lia.
  - rewrite (IH (acc * 10 + d)), (IH (0 * 10 + d)).
    replace (Z.of_nat (length (d :: ds))) with (Z.succ (Z.of_nat (length ds)))
      by (simpl length; lia).
    rewrite Z.pow_succ_r by lia. ring.
Qed.

Lemma digits_value_app (a b : list Z) :
  digits_value (a ++ b) = digits_value a * 10 ^ len b + digits_value b.
Proof.
  unfold digits_value at 1. rewrite fold_left_app.
  rewrite digits_value_fold. reflexivity.
Qed.

Lemma digits_value_bound (ds : list Z) :
  Forall is_digit ds -> 0 <= digits_value ds < 10 ^ len ds.
Proof.
  induction ds as [|d ds IH] using rev_ind; intros H.
  - unfold digits_value, len. simpl. lia.
  - apply Forall_app in H. destruct H as [H1 H2].
    inversion H2 as [|? ? Hd _]; subst. specialize (IH H1).
    rewrite digits_value_app.
    unfold len in *. rewrite length_app. simpl length.
    replace (Z.of_nat (length ds + 1)) with (Z.succ (Z.of_nat (length ds)))
      by lia.
    rewrite Z.pow_succ_r by lia.
    change (10 ^ Z.of_nat 1) with 10.
    replace (digits_value (d :: nil)) with d
      by (unfold digits_value; simpl; lia).
    unfold is_digit in Hd. nia.
Qed.

Lemma cut_digits (p : ascii -> bool) (ds : list Z) :
  (forall d, is_digit d -> p (digit_char d) = false) ->
  Forall is_digit ds ->
  decimal.cut p (digits_string ds) = None.
Proof.
  intros Hp H. induction H as [|d ds Hd Hds IH]; [reflexivity|].
  cbn [digits_string decimal.cut]. rewrite (Hp d Hd), IH. reflexivity.
Qed.

Lemma cut_digits_then (p : ascii -> bool) (ds : list Z) (rest : string) :
  (forall d, is_digit d -> p (digit_char d) = false) ->
  Forall is_digit ds ->
  decimal.cut p (digits_string ds ++ rest)
  = match decimal.cut p rest with
    | Some (before, after) => Some ((digits_string ds ++ before)%string, after)
    | None => None
    end.
Proof.
  intros Hp H. induction H as [|d ds Hd Hds IH].
  - cbn [digits_string String.append].
    destruct (decimal.cut p rest) as [[b a]|]; reflexivity.
  - cbn [digits_string String.append decimal.cut].
    rewrite (Hp d Hd), IH.
    destruct (decimal.cut p rest) as [[b a]|]; reflexivity.
Qed.

Lemma append_empty (s : string) : (s ++ EmptyString)%string = s.
Proof. induction s as [|c s IH]; [reflexivity|]. simpl. rewrite IH. reflexivity. Qed.

Lemma ParseInt64_digits (ds : list Z) :
  Forall is_digit ds -> ds <> [] -> len ds <= 18 ->
  strconv.ParseInt (digits_string ds) 64 = inr (digits_value ds).
Proof.
  intros H Hne Hlen. unfold strconv.ParseInt.
  rewrite (parse_integer_digits ds H Hne).
  pose proof (digits_value_bound ds H) as Hb.
  assert (Hp : 10 ^ len ds <= 10 ^ 18) by (apply Z.pow_le_mono_r; lia).
  replace ((- 2 ^ (64 - 1) <=? digits_value ds)
           && (digits_value ds <=? 2 ^ (64 - 1) - 1)) with true; [reflexivity|].
  symmetry. apply andb_true_iff. split; apply Z.leb_le.
  - change (- 2 ^ (64 - 1)) with (-9223372036854775808). lia.
  - change (2 ^ (64 - 1) - 1) with 9223372036854775807.
    change (10 ^ 18) with 1000000000000000000 in Hp. lia.
Qed.

(** How NewFromString reads the digits once they are isolated. *)
Lemma NewFromString_value (ds : list Z) :
  Forall is_digit ds -> ds <> [] ->
  (if decimal.strlen (digits_string ds) <=? 18
   then match strconv.ParseInt (digits_string ds) 64 with
        | inr parsed64 => Some parsed64
        | inl _ => None
        end
   else strconv.parse_integer (digits_string ds))
  = Some (digits_value ds).
Proof.
  intros H Hne. rewrite digits_string_length.
  destruct (len ds <=? 18) eqn:E.
  - apply Z.leb_le in E. rewrite (ParseInt64_digits ds H Hne E). reflexivity.
  - apply parse_integer_digits; assumption.
Qed.

(** NewFromString reads a plain decimal amount exactly. *)
Lemma NewFromString_amount (ip fp : list Z) :
  Forall is_digit ip -> ip <> [] -> Forall is_digit fp -> len fp <= 2 ^ 31 ->
  decimal.NewFromString (amount_string ip fp)
  = inr (decimal.mkDecimal (digits_value (ip ++ fp)) (- len fp)).
Proof.
  intros Hip Hne Hfp Hlen. unfold decimal.NewFromString, amount_string.
  destruct fp as [|f fp].
  - rewrite (cut_digits decimal.is_E ip digit_not_E Hip).
    rewrite (cut_digits decimal.is_dot ip digit_not_dot Hip).
    rewrite (NewFromString_value ip Hip Hne).
    rewrite app_nil_r. reflexivity.
  - set (fs := f :: fp) in *.
    rewrite (cut_digits_then decimal.is_E ip _ digit_not_E Hip).
    cbn [decimal.cut].
    change (decimal.is_E ".") with false. cbn iota.
    rewrite (cut_digits decimal.is_E fs digit_not_E Hfp).
    rewrite (cut_digits_then decimal.is_dot ip _ digit_not_dot Hip).
    cbn [decimal.cut].
    change (decimal.is_dot ".") with true. cbn iota.
    rewrite append_empty.
    rewrite (cut_digits decimal.is_dot fs digit_not_dot Hfp).
    rewrite <- digits_string_app.
    rewrite (NewFromString_value (ip ++ fs)).
    + rewrite digits_string_length.
      replace ((0 - len fs <? - 2 ^ 31) || (2 ^ 31 - 1 <? 0 - len fs))
        with false; [reflexivity|].
      symmetry. apply orb_false_iff. unfold len in *.
      split; apply Z.ltb_ge; lia.
    + apply Forall_app. split; assumption.
    + destruct ip; [congruence | discriminate].
Qed.

Lemma gwei_to_wei_exact (ip fp : list Z) :
  exact_gwei ip fp ->
  gwei_to_wei (amount_string ip fp)
  = Ok (digits_value (ip ++ fp) * 10 ^ (9 - len fp)).
Proof.
  intros [Hip [Hne [Hfp Hlen]]]. unfold gwei_to_wei.
  rewrite (NewFromString_amount ip fp Hip Hne Hfp) by lia.
  change (decimal.RequireFromString "1000000000")
    with (Ok (decimal.mkDecimal 1000000000 0)).
  cbn [res_bind]. unfold decimal.Mul. cbn [decimal.exp decimal.value].
  assert (Hk : 0 <= len fp) by (unfold len; lia).
  replace ((2 ^ 31 - 1 <? - len fp + 0) || (- len fp + 0 <? - 2 ^ 31))
    with false
    by (symmetry; apply orb_false_iff; split; apply Z.ltb_ge; lia).
  cbn [res_bind]. f_equal. unfold decimal.BigInt.
  cbn [decimal.exp decimal.value].
  destruct (Z.eq_dec (len fp) 0) as [E|E].
  - rewrite E. reflexivity.
  - replace (- len fp + 0 =? 0) with false by (symmetry; apply Z.eqb_neq; lia).
    replace (- len fp + 0 <? 0) with true by (symmetry; apply Z.ltb_lt; lia).
    replace (- (- len fp + 0)) with (len fp) by lia.
    replace 1000000000 with (10 ^ (9 - len fp) * 10 ^ len fp).
    + rewrite Z.mul_assoc. apply Z.quot_mul.
      apply Z.pow_nonzero; lia.
    + rewrite <- Z.pow_add_r by lia.
      replace (9 - len fp + len fp) with 9 by lia. reflexivity.
Qed.

(** The wei amount is the gwei amount times 10^9, as rational numbers. *)
Lemma exact_gwei_value (ip fp : list Z) :
  exact_gwei ip fp ->
  (inject_Z (digits_value (ip ++ fp) * 10 ^ (9 - len fp))
   == amount_value ip fp * inject_Z (10 ^ 9))%Q.
Proof.
  intros [Hip [Hne [Hfp Hlen]]].
  assert (Hk : 0 <= len fp) by (unfold len; lia).
  unfold amount_value. rewrite digits_value_app.
  replace (10 ^ 9) with (10 ^ len fp * 10 ^ (9 - len fp)).
  - rewrite !inject_Z_mult, inject_Z_plus, inject_Z_mult.
    assert (Hnz : ~ (inject_Z (10 ^ len fp) == 0)%Q).
    { change 0%Q with (inject_Z 0). rewrite inject_Z_injective.
      apply Z.pow_nonzero; lia. }
    field. exact Hnz.
  - rewrite <- Z.pow_add_r by lia.
    replace (len fp + (9 - len fp)) with 9 by lia. reflexivity.
Qed.

Lemma is_empty_false (s : string) : s <> EmptyString -> is_empty s = false.
Proof. destruct s; [congruence | reflexivity]. Qed.

Lemma amount_string_nonempty (ip fp : list Z) :
  ip <> [] -> amount_string ip fp <> EmptyString.
Proof.
  intros H. destruct ip as [|d ip]; [congruence|].
  unfold amount_string. destruct fp; discriminate.
Qed.

Section Overrides.

Variable lib : Lib.
Variable node : Node.
Variable opt : Options.

Lemma emits_Transact_no_FeeHistory (fuel : nat) (privateKey : PrivateKey)
    (toAddress : option Address) (amount : Z) (gasPrice : option Z)
    (data : list byte) :
  globalOptMaxPriorityFeePerGas opt <> EmptyString ->
  globalOptMaxFeePerGas opt <> EmptyString ->
  emits not_FeeHistory
    (Transact lib node opt fuel privateKey toAddress amount gasPrice data).
Proof.
  intros Htip Hcap.
  unfold Transact, Transact_prepare, Transact_nonce, Transact_gasLimit,
    Transact_gasPrice, Transact_newTx, Transact_feeCaps,
    Transact_sign, Transact_submit, Transact_confirm, SendRawTransaction,
    isContractAddress.
  rewrite (is_empty_false _ Htip), (is_empty_false _ Hcap). cbn [orb].
  emits_auto.
  all: apply emits_getTxReceipt;
    [exact I | intros m; exact I | intros d; exact I].
Qed.

(** C7.  When both fee override strings are non-empty, no run of Transact
    fetches the fee history; and when they are exact gwei amounts, the
    dynamic-fee transaction carries as fee caps exactly those amounts
    times 10^9. *)
Theorem Transact_fee_overrides
    (Htip : globalOptMaxPriorityFeePerGas opt <> EmptyString)
    (Hcap : globalOptMaxFeePerGas opt <> EmptyString) :
  (forall fuel privateKey toAddress amount gasPrice data w,
     extends not_FeeHistory w
       (snd (Transact lib node opt fuel privateKey toAddress amount gasPrice
               data w))) /\
  (forall ip1 fp1 ip2 fp2,
     globalOptTxType opt = txTypeEip1559 opt ->
     exact_gwei ip1 fp1 -> exact_gwei ip2 fp2 ->
     globalOptMaxPriorityFeePerGas opt = amount_string ip1 fp1 ->
     globalOptMaxFeePerGas opt = amount_string ip2 fp2 ->
     exists maxPriorityFeePerGas maxFeePerGas,
       (forall nonce toAddress amount gasLimit gasPrice data w,
          Transact_newTx node opt nonce toAddress amount gasLimit gasPrice
            data w
          = (Ok (DynamicFeeTx nonce toAddress amount gasLimit
                   maxPriorityFeePerGas maxFeePerGas data), w)) /\
       (inject_Z maxPriorityFeePerGas
        == amount_value ip1 fp1 * inject_Z (10 ^ 9))%Q /\
       (inject_Z maxFeePerGas
        == amount_value ip2 fp2 * inject_Z (10 ^ 9))%Q).
Proof.
  split.
  - intros fuel privateKey toAddress amount gasPrice data w.
    apply emits_Transact_no_FeeHistory; assumption.
  - intros ip1 fp1 ip2 fp2 Htype H1 H2 E1 E2.
    exists (digits_value (ip1 ++ fp1) * 10 ^ (9 - len fp1)),
           (digits_value (ip2 ++ fp2) * 10 ^ (9 - len fp2)).
    split; [|split].
    + intros nonce toAddress amount gasLimit gasPrice data w.
      unfold Transact_newTx. rewrite Htype, String.eqb_refl.
      unfold Transact_feeCaps.
      rewrite (is_empty_false _ Htip), (is_empty_false _ Hcap). cbn [orb].
      rewrite E1, E2.
      rewrite (gwei_to_wei_exact ip1 fp1 H1), (gwei_to_wei_exact ip2 fp2 H2).
      reflexivity.
    + apply exact_gwei_value, H1.
    + apply exact_gwei_value, H2.
Qed.

End Overrides.

(** Beyond nine digits after the point the amount is cut to whole wei. *)
Lemma gwei_to_wei_truncates :
  gwei_to_wei "0.0000000019" = Ok 1.
Proof. reflexivity. Qed.

(** [Transact_fee_overrides] for the overrides 1.5 and 30 gwei. *)
Lemma Transact_fee_overrides_witness :
  exists tip cap,
    Transact_newTx (Sample.node 0)
      (Sample.with_fees "1.5" "30" Sample.options) 7 None 0 21000 1 []
      Sample.world0
    = (Ok (DynamicFeeTx 7 None 0 21000 tip cap []), Sample.world0) /\
    (inject_Z tip == amount_value [1%Z] [5%Z] * inject_Z (10 ^ 9)%Z)%Q.
Proof.
  destruct (proj2 (Transact_fee_overrides Sample.lib (Sample.node 0)
                     (Sample.with_fees "1.5" "30" Sample.options)
                     ltac:(discriminate) ltac:(discriminate))
              [1] [5] [3; 0] [])
    as [tip [cap [Hnew [Htip _]]]].
  - reflexivity.
  - repeat split; try (repeat constructor; unfold is_digit; lia);
      try discriminate.
  - repeat split; try (repeat constructor; unfold is_digit; lia);
      try discriminate.
  - reflexivity.
  - reflexivity.
  - exists tip, cap. split; [apply Hnew | exact Htip].
Defined.

(** * Further properties of the package *)

(** ** String helpers *)

(** X1.  [contains arr str] is true exactly when [str] is an element of
    [arr]. *)
Theorem contains_iff_In (arr : list string) (str : string) :
  contains arr str = true <-> In str arr.
Proof.
  induction arr as [|a arr IH]; cbn [contains In].
  - split; [discriminate | contradiction].
  - destruct (String.eqb a str) eqn:E.
    + apply String.eqb_eq in E. split; [intros _; left; exact E | reflexivity].
    + apply String.eqb_neq in E. rewrite IH. split.
      * intros H. right. exact H.
      * intros [H|H]; [contradiction | exact H].
Qed.

Ltac each_ascii c :=
  destruct c as [[] [] [] [] [] [] [] []].

Lemma fromHexChar_is_hex_digit (c : ascii) :
  is_hex_digit c = match hex.fromHexChar c with Some _ => true | None => false end.
Proof. each_ascii c; reflexivity. Qed.

Lemma fromHexChar_range (c : ascii) (n : Z) :
  hex.fromHexChar c = Some n -> 0 <= n < 16.
Proof. each_ascii c; cbv; intros H; inversion H; split; congruence. Qed.

(** Induction over a string two characters at a time. *)
Lemma string_pair_ind (P : string -> Prop) :
  P EmptyString ->
  (forall a, P (String a EmptyString)) ->
  (forall a b s, P s -> P (String a (String b s))) ->
  forall s, P s.
Proof.
  intros H0 H1 H2.
  fix rec 1. intros [|a [|b s]].
  - exact H0.
  - apply H1.
  - apply H2. apply rec.
Qed.

Lemma DecodeString_ok_iff (s : string) :
  (exists bs, hex.DecodeString s = inr bs)
  <-> Nat.even (String.length s) = true /\ all_hex s = true.
Proof.
  induction s as [|a|a b s IH] using string_pair_ind.
  - split; [intros _; split; reflexivity | intros _; exists []; reflexivity].
  - cbn [hex.DecodeString String.length Nat.even]. split.
    + intros [bs H]. destruct (hex.fromHexChar a); discriminate.
    + intros [H _]. discriminate.
  - cbn [hex.DecodeString String.length Nat.even all_hex].
    rewrite !fromHexChar_is_hex_digit.
    destruct (hex.fromHexChar a) as [p|];
      [|split; [intros [bs H]; discriminate | intros [_ H]; discriminate]].
    destruct (hex.fromHexChar b) as [q|];
      [|split; [intros [bs H]; discriminate | intros [_ H]; discriminate]].
    cbn [andb]. rewrite <- IH. split.
    + intros [bs H]. destruct (hex.DecodeString s) as [e|bs'];
        [discriminate | exists bs'; reflexivity].
    + intros [bs' H]. rewrite H. eexists. reflexivity.
Qed.

(** X2.  [isValidHexString] accepts exactly the strings that, once a leading
    0x or 0X is removed, consist of an even number of hexadecimal digits;
    the empty string and a bare prefix are accepted. *)
Theorem isValidHexString_iff (str : string) :
  isValidHexString str = true
  <-> let body := if has0xPrefix str then string_drop 2 str else str in
      Nat.even (String.length body) = true /\ all_hex body = true.
Proof.
  cbv zeta. rewrite <- DecodeString_ok_iff. unfold isValidHexString.
  destruct str as [|c str]; cbn [is_empty].
  - cbn. split; [intros _; exists []; reflexivity | reflexivity].
  - destruct (hex.DecodeString
                (if has0xPrefix (String c str)
                 then string_drop 2 (String c str) else String c str))
      as [e|bs].
    + split; [discriminate | intros [bs H]; discriminate].
    + split; [intros _; exists bs; reflexivity | reflexivity].
Qed.

Lemma has0xPrefix_iff (str : string) :
  has0xPrefix str = true
  <-> exists rest, str = String "0" (String "x" rest)
                   \/ str = String "0" (String "X" rest).
Proof.
  unfold has0xPrefix. split.
  - destruct str as [|c0 [|c1 rest]]; try discriminate.
    intros H. apply andb_true_iff in H. destruct H as [H0 H1].
    apply Ascii.eqb_eq in H0. subst c0. exists rest.
    apply orb_true_iff in H1.
    destruct H1 as [H1|H1]; apply Ascii.eqb_eq in H1; subst c1; auto.
  - intros [rest [-> | ->]]; reflexivity.
Qed.

Lemma hextable_digit (n : Z) :
  0 <= n < 16 -> hex.fromHexChar (hex.hextable n) = Some n.
Proof.
  intros H. rewrite <- (Z2Nat.id n) by lia.
  assert (Hk : (Z.to_nat n < 16)%nat) by lia.
  revert Hk. generalize (Z.to_nat n). intros k Hk.
  do 16 (destruct k as [|k]; [reflexivity|]). lia.
Qed.

Lemma DecodeString_EncodeToString (bs : list byte) :
  Forall is_byte bs -> hex.DecodeString (hex.EncodeToString bs) = inr bs.
Proof.
  intros H. induction H as [|v bs Hv Hbs IH]; [reflexivity|].
  cbn [hex.EncodeToString hex.DecodeString]. unfold is_byte in Hv.
  rewrite Z.shiftr_div_pow2 by lia.
  change 15 with (Z.ones 4). rewrite Z.land_ones by lia.
  change (2 ^ 4) with 16.
  rewrite hextable_digit
    by (split; [apply Z.div_pos; lia | apply Z.div_lt_upper_bound; lia]).
  rewrite hextable_digit by (apply Z.mod_pos_bound; lia).
  rewrite IH. f_equal. f_equal.
  pose proof (Z.div_mod v 16 ltac:(lia)). lia.
Qed.

Lemma hex_class_is_hex_digit (c : ascii) :
  regexp.in_ranges c [("0", "9"); ("a", "f"); ("A", "F")]%char
  = is_hex_digit c.
Proof. each_ascii c; reflexivity. Qed.

Lemma accept_Repeat_S (n : nat) (r : regexp.Regexp) (s : string)
    (k : string -> bool) :
  regexp.accept (regexp.Repeat (S n) r) s k
  = regexp.accept r s (fun rest => regexp.accept (regexp.Repeat n r) rest k).
Proof. reflexivity. Qed.

Lemma accept_Class (ranges : list (ascii * ascii)) (s : string)
    (k : string -> bool) :
  regexp.accept (regexp.Class ranges) s k
  = match s with
    | String c rest => regexp.in_ranges c ranges && k rest
    | EmptyString => false
    end.
Proof. reflexivity. Qed.

(** [n] hexadecimal digits, then what [k] accepts. *)
Lemma accept_hex_digits (n : nat) (k : string -> bool) : forall s,
  regexp.accept
    (regexp.Repeat n (regexp.Class [("0", "9"); ("a", "f"); ("A", "F")]%char))
    s k = true
  <-> exists h rest,
        s = (h ++ rest)%string /\ String.length h = n /\ all_hex h = true
        /\ k rest = true.
Proof.
  induction n as [|n IH]; intros s.
  - cbn [regexp.accept]. split.
    + intros H. exists EmptyString, s. repeat split. exact H.
    + intros [h [rest [-> [Hl [_ Hk]]]]].
      destruct h; [exact Hk | discriminate].
  - rewrite accept_Repeat_S, accept_Class.
    destruct s as [|c s].
    + split; [discriminate|].
      intros [h [rest [E [Hl _]]]]. destruct h; discriminate.
    + rewrite hex_class_is_hex_digit, andb_true_iff, IH. split.
      * intros [Hc [h [rest [-> [Hl [Hh Hk]]]]]].
        exists (String c h), rest. cbn [String.append String.length all_hex].
        rewrite Hc, Hh, Hl. repeat split. exact Hk.
      * intros [h [rest [E [Hl [Hh Hk]]]]].
        destruct h as [|c' h]; [discriminate|].
        cbn [String.append String.length all_hex] in *.
        inversion E; subst c' s. apply andb_true_iff in Hh.
        destruct Hh as [Hc Hh]. split; [exact Hc|].
        exists h, rest. repeat split; [lia | exact Hh | exact Hk].
Qed.

Lemma append_empty_r (s : string) : (s ++ EmptyString)%string = s.
Proof.
  induction s as [|c s IH]; [reflexivity|].
  cbn [String.append]. rewrite IH. reflexivity.
Qed.

Lemma is_empty_iff (s : string) : is_empty s = true <-> s = EmptyString.
Proof. destruct s; split; (reflexivity || discriminate). Qed.

Lemma ethAddressRE_accepts (v : string) :
  regexp.MatchString ethAddressRE v = true
  <-> exists h, String.length h = 40%nat /\ all_hex h = true
                /\ (v = String "0" (String "x" h) \/ v = h).
Proof.
  unfold regexp.MatchString, ethAddressRE.
  cbn [regexp.accept]. rewrite orb_true_iff. split.
  - intros [H|H].
    + destruct v as [|c0 [|c1 rest]]; cbn [regexp.strip_prefix] in H;
        try discriminate;
        try (destruct (Ascii.eqb "0" c0); discriminate).
      destruct (Ascii.eqb "0" c0) eqn:E0; [|discriminate].
      destruct (Ascii.eqb "x" c1) eqn:E1; [|discriminate].
      apply Ascii.eqb_eq in E0, E1. subst c0 c1.
      apply (accept_hex_digits 40 is_empty rest) in H.
      destruct H as [h [r [-> [Hl [Hh Hk]]]]].
      apply is_empty_iff in Hk. subst r. rewrite append_empty_r.
      exists h. auto.
    + apply (accept_hex_digits 40 is_empty v) in H.
      destruct H as [h [r [-> [Hl [Hh Hk]]]]].
      apply is_empty_iff in Hk. subst r. rewrite append_empty_r.
      exists h. auto.
  - intros [h [Hl [Hh [-> | ->]]]].
    + left. cbn [regexp.strip_prefix]. rewrite !Ascii.eqb_refl.
      apply (accept_hex_digits 40 is_empty h).
      exists h, EmptyString. rewrite append_empty_r. auto.
    + right. apply (accept_hex_digits 40 is_empty h).
      exists h, EmptyString. rewrite append_empty_r. auto.
Qed.

Lemma all_hex_no_0x (h : string) :
  all_hex h = true -> has0xPrefix h = false.
Proof.
  destruct h as [|c0 [|c1 h]]; try reflexivity.
  cbn [all_hex has0xPrefix]. intros H.
  apply andb_true_iff in H. destruct H as [_ H].
  apply andb_true_iff in H. destruct H as [H1 _].
  destruct (Ascii.eqb c1 "x") eqn:Ex.
  { apply Ascii.eqb_eq in Ex. subst c1. discriminate. }
  destruct (Ascii.eqb c1 "X") eqn:EX.
  { apply Ascii.eqb_eq in EX. subst c1. discriminate. }
  apply andb_false_r.
Qed.

Lemma string_length_append (a b : string) :
  String.length (a ++ b) = (String.length a + String.length b)%nat.
Proof.
  induction a as [|c a IH]; [reflexivity|].
  cbn [String.append String.length]. rewrite IH. reflexivity.
Qed.

(** X3.  [isValidEthAddress] accepts exactly 40 hexadecimal digits of either
    case, alone or behind a lower-case 0x; so an accepted string has 40 or
    42 characters. *)
Theorem isValidEthAddress_iff (v : string) :
  (isValidEthAddress v = true
   <-> exists h, String.length h = 40%nat /\ all_hex h = true
                 /\ (v = String "0" (String "x" h) \/ v = h)) /\
  (isValidEthAddress v = true ->
   String.length v = 40%nat \/ String.length v = 42%nat).
Proof.
  unfold isValidEthAddress. split; [apply ethAddressRE_accepts|].
  intros H. apply ethAddressRE_accepts in H.
  destruct H as [h [Hl [_ [-> | ->]]]].
  - right. cbn [String.length]. rewrite Hl. reflexivity.
  - left. exact Hl.
Qed.

Lemma isValidEthAddress_iff_witness :
  String.length "52908400098527886E0F7030069857D2E4169EE7" = 40%nat
  \/ String.length "52908400098527886E0F7030069857D2E4169EE7" = 42%nat.
Proof.
  apply (proj2 (isValidEthAddress_iff
                  "52908400098527886E0F7030069857D2E4169EE7")).
  reflexivity.
Defined.

(** X4.  Every string [isValidEthAddress] accepts is a valid hex string for
    [isValidHexString]. *)
Theorem isValidEthAddress_isValidHexString (v : string) :
  isValidEthAddress v = true -> isValidHexString v = true.
Proof.
  intros H. apply ethAddressRE_accepts in H.
  destruct H as [h [Hl [Hh Hv]]].
  assert (Hdec : exists bs, hex.DecodeString h = inr bs).
  { apply DecodeString_ok_iff. rewrite Hl. split; [reflexivity | exact Hh]. }
  destruct Hdec as [bs Hdec].
  unfold isValidHexString. destruct Hv as [-> | ->].
  - cbn [is_empty has0xPrefix string_drop].
    rewrite !Ascii.eqb_refl. cbn [andb orb]. rewrite Hdec. reflexivity.
  - rewrite (all_hex_no_0x h Hh), Hdec.
    destruct h; reflexivity.
Qed.

Lemma isValidEthAddress_isValidHexString_witness :
  isValidHexString "0x52908400098527886E0F7030069857D2E4169EE7" = true.
Proof.
  apply isValidEthAddress_isValidHexString. reflexivity.
Defined.

(** X5.  An upper-case prefix 0X counts as a prefix for [has0xPrefix] and
    [isValidHexString] accepts 40 digits behind it, but
    [isValidEthAddress] rejects every string that starts with 0X. *)
Theorem isValidEthAddress_rejects_0X (rest : string) :
  has0xPrefix (String "0" (String "X" rest)) = true /\
  isValidEthAddress (String "0" (String "X" rest)) = false /\
  (String.length rest = 40%nat -> all_hex rest = true ->
   isValidHexString (String "0" (String "X" rest)) = true).
Proof.
  split; [reflexivity|]. split.
  - destruct (isValidEthAddress (String "0" (String "X" rest))) eqn:E;
      [|reflexivity].
    unfold isValidEthAddress in E. apply ethAddressRE_accepts in E.
    destruct E as [h [_ [Hh [E | E]]]].
    + discriminate.
    + subst h. cbn [all_hex] in Hh.
      apply andb_true_iff in Hh. destruct Hh as [_ Hh].
      apply andb_true_iff in Hh. destruct Hh as [HX _]. discriminate.
  - intros Hl Hh.
    assert (Hdec : exists bs, hex.DecodeString rest = inr bs).
    { apply DecodeString_ok_iff. rewrite Hl. split; [reflexivity | exact Hh]. }
    destruct Hdec as [bs Hdec].
    unfold isValidHexString. cbn [is_empty has0xPrefix string_drop].
    rewrite !Ascii.eqb_refl. cbn [andb orb].
    replace (Ascii.eqb "X" "x") with false by reflexivity. cbn [orb].
    rewrite Hdec. reflexivity.
Qed.

Lemma isValidEthAddress_rejects_0X_witness :
  isValidHexString "0X52908400098527886E0F7030069857D2E4169EE7" = true.
Proof.
  apply (proj2 (proj2 (isValidEthAddress_rejects_0X
                         "52908400098527886E0F7030069857D2E4169EE7")));
    reflexivity.
Defined.

(** X6.  Decoding undoes encoding: [hex.DecodeString] returns the bytes
    [hex.EncodeToString] was given, and [isValidHexString] accepts the
    0x-prefixed encoding of any byte string, the form GenRawTx returns. *)
Theorem isValidHexString_Encode (bs : list byte) :
  Forall is_byte bs ->
  hex.DecodeString (hex.EncodeToString bs) = inr bs /\
  isValidHexString (hexutil_Encode_0x bs) = true.
Proof.
  intros H. pose proof (DecodeString_EncodeToString bs H) as Hdec.
  split; [exact Hdec|].
  unfold isValidHexString, hexutil_Encode_0x.
  cbn [is_empty has0xPrefix string_drop].
  rewrite !Ascii.eqb_refl. cbn [andb orb]. rewrite Hdec. reflexivity.
Qed.

Lemma isValidHexString_Encode_witness :
  hex.DecodeString (hex.EncodeToString [0; 255; 18]) = inr [0; 255; 18] /\
  isValidHexString (hexutil_Encode_0x [0; 255; 18]) = true.
Proof.
  apply isValidHexString_Encode.
  repeat constructor; unfold is_byte; lia.
Defined.

(** ** More on getRecoveryId and the compact signature *)

Lemma wrap64_range (x : Z) : - 2 ^ 63 <= wrap64 x < 2 ^ 63.
Proof.
  unfold wrap64.
  pose proof (Z.mod_pos_bound (x + 2 ^ 63) (2 ^ 64) ltac:(lia)). lia.
Qed.

Lemma Int64_range (v : Z) : - 2 ^ 63 <= big.Int64 v < 2 ^ 63.
Proof.
  unfold big.Int64. destruct (v <? 0); apply wrap64_range.
Qed.

(** The EIP-155 branch on an int64 [x = v64 - 35]: the remainder of [x]
    by 2 with the sign of [x]. *)
Lemma eip155_branch_rem (x : Z) :
  - 2 ^ 63 <= x < 2 ^ 63 ->
  sub64 x (mul64 2 (div64 x 2)) = Z.rem x 2.
Proof.
  intros H. unfold sub64, mul64, div64.
  pose proof (Z.quot_rem' x 2) as Hqr.
  assert (Hr : -2 < Z.rem x 2 < 2).
  { pose proof (Z.rem_bound_abs x 2 ltac:(lia)). lia. }
  assert (Hs : (0 <= x -> 0 <= Z.rem x 2) /\ (x <= 0 -> Z.rem x 2 <= 0)).
  { split; intros Hx.
    - apply Z.rem_nonneg; lia.
    - apply Z.rem_nonpos; lia. }
  rewrite (wrap64_id (Z.quot x 2)) by lia.
  rewrite (wrap64_id (2 * Z.quot x 2)) by lia.
  rewrite wrap64_id by lia. lia.
Qed.

(** X7.  For every integer [v], of any size, the recovery id is -1, 0 or 1. *)
Theorem getRecoveryId_range (v : Z) : -1 <= getRecoveryId v <= 1.
Proof.
  unfold getRecoveryId.
  pose proof (Int64_range v) as Hv. set (v64 := big.Int64 v) in *.
  destruct ((v64 =? 0) || (v64 =? 1)) eqn:E01.
  - apply orb_true_iff in E01. destruct E01 as [E|E]; apply Z.eqb_eq in E; lia.
  - destruct ((v64 =? 27) || (v64 =? 28)) eqn:E27.
    + apply orb_true_iff in E27.
      destruct E27 as [E|E]; apply Z.eqb_eq in E; rewrite E; cbv; split;
        discriminate.
    + rewrite eip155_branch_rem by apply wrap64_range.
      pose proof (Z.rem_bound_abs (sub64 v64 35) 2 ltac:(lia)). lia.
Qed.

(** X8.  The note in getRecoveryId, that the result can be read off the
    parity of [v], holds from 27 on, where the recovery id is the parity of
    [v + 1]; for 0 and 1 it is the parity of [v] itself. *)
Theorem getRecoveryId_parity (v : Z) :
  (v = 27 \/ v = 28 \/ 35 <= v < 2 ^ 63 -> getRecoveryId v = (v + 1) mod 2) /\
  (v = 0 \/ v = 1 -> getRecoveryId v = v mod 2).
Proof.
  split.
  - intros [-> | [-> | H]]; [reflexivity | reflexivity |].
    rewrite getRecoveryId_eip155 by lia.
    replace (v + 1) with (v - 35 + 18 * 2) by lia.
    rewrite Z.mod_add by lia. reflexivity.
  - intros [-> | ->]; reflexivity.
Qed.

Lemma getRecoveryId_parity_witness :
  getRecoveryId 37 = (37 + 1) mod 2 /\ getRecoveryId 1 = 1 mod 2.
Proof.
  split.
  - apply (proj1 (getRecoveryId_parity 37)). right. right. lia.
  - apply (proj2 (getRecoveryId_parity 1)). right. reflexivity.
Defined.

Lemma Bytes_opp (x : Z) : big.Bytes (- x) = big.Bytes x.
Proof. unfold big.Bytes. rewrite Z.abs_opp. reflexivity. Qed.

Lemma Bytes_long_iff (x : Z) :
  32 < len (big.Bytes x) <-> 2 ^ 256 <= Z.abs x.
Proof.
  pose proof (Bytes_length x 32) as H.
  change (Z.of_nat 32) with 32 in H. change (256 ^ 32) with (2 ^ 256) in H.
  lia.
Qed.

(** X9.  buildECDSASignature panics exactly when [r] or [s] is 2^256 or more
    in absolute value, and it reads [r] and [s] by their absolute values:
    negating either changes nothing. *)
Theorem buildECDSASignature_panics_from_2_256 (v r s : Z) :
  (buildECDSASignature v r s = Panic SliceBounds
   <-> 2 ^ 256 <= Z.abs r \/ 2 ^ 256 <= Z.abs s) /\
  buildECDSASignature v (- r) s = buildECDSASignature v r s /\
  buildECDSASignature v r (- s) = buildECDSASignature v r s.
Proof.
  split; [|split].
  - rewrite <- !Bytes_long_iff. split.
    + intros H.
      destruct (Z_lt_le_dec 32 (len (big.Bytes r))) as [Hr|Hr];
        [left; exact Hr|].
      destruct (Z_lt_le_dec 32 (len (big.Bytes s))) as [Hs|Hs];
        [right; exact Hs|].
      rewrite (buildECDSASignature_ok v r s Hr Hs) in H. discriminate.
    + intros Hlong. unfold buildECDSASignature.
      destruct (Z_lt_le_dec 32 (len (big.Bytes r))) as [Hr|Hr].
      * rewrite (copy_from_long _ Hr). reflexivity.
      * rewrite (copy_from_pad _ Hr). cbn [res_bind].
        destruct Hlong as [Hl|Hl]; [lia|].
        rewrite (copy_from_long _ Hl). reflexivity.
  - unfold buildECDSASignature. rewrite Bytes_opp. reflexivity.
  - unfold buildECDSASignature. rewrite Bytes_opp. reflexivity.
Qed.

Lemma left_pad_bytes (n : nat) (bs : list byte) :
  Forall is_byte bs -> Forall is_byte (left_pad n bs).
Proof.
  intros H. unfold left_pad. apply Forall_app. split; [|exact H].
  apply Forall_forall. intros x Hx. apply repeat_spec in Hx. subst x.
  unfold is_byte. lia.
Qed.

Lemma app_inv_length {A : Type} (a a' b b' : list A) :
  length a = length a' -> a ++ b = a' ++ b' -> a = a' /\ b = b'.
Proof.
  revert a'. induction a as [|x a IH]; intros [|x' a'] Hl E;
    try discriminate.
  - split; [reflexivity | exact E].
  - cbn [app] in E. inversion E as [[Ex E']]. simpl in Hl.
    destruct (IH a' ltac:(lia) E') as [-> ->]. split; reflexivity.
Qed.

(** X10.  For [r] and [s] below 2^256 in absolute value the signature is a
    list of 65 byte values from which [|r|] and [|s|] can be read back:
    two signatures are equal only if both agree. *)
Theorem buildECDSASignature_injective (v r s v' r' s' : Z) (sig : list byte) :
  Z.abs r < 2 ^ 256 -> Z.abs s < 2 ^ 256 ->
  Z.abs r' < 2 ^ 256 -> Z.abs s' < 2 ^ 256 ->
  buildECDSASignature v r s = Ok sig ->
  Forall is_byte sig /\
  (buildECDSASignature v' r' s' = Ok sig ->
   Z.abs r' = Z.abs r /\ Z.abs s' = Z.abs s
   /\ byte_of_int (getRecoveryId v') = byte_of_int (getRecoveryId v)).
Proof.
  intros Hr Hs Hr' Hs' Hsig.
  assert (L : forall x, Z.abs x < 2 ^ 256 -> len (big.Bytes x) <= 32).
  { intros x Hx. apply (Bytes_length x 32). exact Hx. }
  rewrite (buildECDSASignature_ok v r s (L r Hr) (L s Hs)) in Hsig.
  inversion Hsig as [E]. clear Hsig. split.
  - apply Forall_app. split; [apply Forall_app; split|].
    + apply left_pad_bytes, Bytes_are_bytes.
    + apply left_pad_bytes, Bytes_are_bytes.
    + constructor; [|constructor]. unfold byte_of_int, is_byte.
      apply Z.mod_pos_bound. lia.
  - rewrite (buildECDSASignature_ok v' r' s' (L r' Hr') (L s' Hs')).
    intros H. inversion H as [E']. clear H.
    assert (Len : forall x, Z.abs x < 2 ^ 256 ->
                    length (left_pad 32 (big.Bytes x)) = 32%nat).
    { intros x Hx. apply left_pad_length. specialize (L x Hx).
      unfold len in L. lia. }
    apply app_inj_tail in E'. destruct E' as [E' Eb].
    apply app_inv_length in E'; [|rewrite !Len by assumption; reflexivity].
    destruct E' as [Er Es].
    apply (f_equal big.be_value) in Er, Es.
    rewrite !left_pad_value, !Bytes_value in Er, Es. auto.
Qed.

Lemma buildECDSASignature_injective_witness :
  exists sig,
    buildECDSASignature 28 258 3 = Ok sig /\ Forall is_byte sig.
Proof.
  eexists. split; [reflexivity|].
  eapply (buildECDSASignature_injective 28 258 3 28 258 3); try reflexivity.
Defined.

(** ** More on receipt polling *)

Section Polling.

Variable node : Node.

(** Without a timeout, [K] lookups that miss leave the loop where it
    started, [K] lookups and [K] waits later. *)
Lemma recheck_skip_misses (h : Hash) (timeout beginTime : Z) :
  timeout <= 0 ->
  forall (K fuel : nat) (w : World),
    (forall i, (i < K)%nat ->
       snd (TransactionReceipt node (lookups w + i) h) = Failure NotFound) ->
    recheck node (K + fuel) h timeout beginTime w
    = recheck node fuel h timeout beginTime
        (mkWorld (now w + total_latency node h (lookups w) K
                  + Z.of_nat K * (Second * 5))
                 (lookups w + K) (trace w ++ miss_events h K)).
Proof.
  intros Hto. induction K as [|K IH]; intros fuel w Hmiss.
  - cbn [Nat.add total_latency miss_events]. destruct w as [t n tr].
    cbn [now lookups trace]. rewrite app_nil_r, Nat.add_0_r. f_equal.
    f_equal. lia.
  - assert (H0 : snd (TransactionReceipt node (lookups w) h)
                 = Failure NotFound).
    { specialize (Hmiss 0%nat ltac:(lia)). rewrite Nat.add_0_r in Hmiss.
      exact Hmiss. }
    cbn [Nat.add]. rewrite (recheck_miss _ _ _ _ _ _ H0). cbn zeta.
    replace (0 <? timeout) with false by (symmetry; apply Z.ltb_ge; lia).
    cbn [andb]. rewrite IH.
    + cbn [now lookups trace total_latency miss_events]. f_equal. f_equal.
      * lia.
      * lia.
      * rewrite <- !app_assoc. reflexivity.
    + cbn [lookups]. intros i Hi.
      replace (S (lookups w) + i)%nat with (lookups w + S i)%nat by lia.
      apply Hmiss. lia.
Qed.

Lemma miss_events_sleeps (h : Hash) (K : nat) :
  filter is_Sleep (miss_events h K) = repeat (Sleep (Second * 5)) K.
Proof.
  induction K as [|K IH]; [reflexivity|].
  cbn [miss_events app filter is_Sleep repeat]. rewrite IH. reflexivity.
Qed.

(** X11.  Without a timeout (a timeout of 0 or less), getTxReceipt polls
    until the node has the receipt: after [K] lookups that answer "not
    found" and one that answers with a receipt, it returns that receipt,
    having made [K + 1] lookups and [K] waits of five seconds. *)
Theorem getTxReceipt_polls_until_found (h : Hash) (rp : Receipt)
    (timeout : Z) (K fuel : nat) (w : World) :
  timeout <= 0 ->
  (K < fuel)%nat ->
  (forall i, (i < K)%nat ->
     snd (TransactionReceipt node (lookups w + i) h) = Failure NotFound) ->
  snd (TransactionReceipt node (lookups w + K) h) = Success rp ->
  let events := miss_events h K ++ [CallTransactionReceipt h] in
  getTxReceipt node fuel h timeout w
  = (Ok rp,
     mkWorld (now w + total_latency node h (lookups w) (S K)
              + Z.of_nat K * (Second * 5))
             (lookups w + S K) (trace w ++ events)) /\
  filter is_Sleep events = repeat (Sleep (Second * 5)) K.
Proof.
  intros Hto Hfuel Hmiss Hhit events. split.
  - unfold getTxReceipt, bind, time_Now.
    replace fuel with (K + S (fuel - S K))%nat by lia.
    rewrite (recheck_skip_misses h timeout (now w) Hto K _ w Hmiss).
    rewrite recheck_found with (rp := rp) by exact Hhit.
    cbn [now lookups trace]. f_equal. f_equal.
    + assert (E : forall n s, total_latency node h s (S n)
                    = total_latency node h s n
                      + fst (TransactionReceipt node (s + n) h)).
      { induction n as [|n IHn]; intros s.
        - cbn [total_latency]. rewrite Nat.add_0_r. lia.
        - change (total_latency node h s (S (S n)))
            with (fst (TransactionReceipt node s h)
                  + total_latency node h (S s) (S n)).
          rewrite IHn. cbn [total_latency].
          replace (S s + n)%nat with (s + S n)%nat by lia. lia. }
      rewrite E. lia.
    + lia.
    + subst events. rewrite app_assoc. reflexivity.
  - subst events. rewrite filter_app, miss_events_sleeps.
    cbn [filter is_Sleep]. apply app_nil_r.
Qed.

(** X12.  A lookup error other than "not found" ends the polling at once:
    after [K] misses without a timeout, getTxReceipt returns that error,
    wrapped as "TransactionReceipt fail", without a further wait. *)
Theorem getTxReceipt_lookup_error_is_final (h : Hash) (e : Error)
    (timeout : Z) (K fuel : nat) (w : World) :
  timeout <= 0 ->
  (K < fuel)%nat ->
  (forall i, (i < K)%nat ->
     snd (TransactionReceipt node (lookups w + i) h) = Failure NotFound) ->
  snd (TransactionReceipt node (lookups w + K) h) = Failure e ->
  is_NotFound e = false ->
  getTxReceipt node fuel h timeout w
  = (Err (Wrap "TransactionReceipt fail" e),
     mkWorld (now w + total_latency node h (lookups w) K
              + Z.of_nat K * (Second * 5)
              + fst (TransactionReceipt node (lookups w + K) h))
             (lookups w + S K)
             (trace w ++ miss_events h K ++ [CallTransactionReceipt h])).
Proof.
  intros Hto Hfuel Hmiss Hfail Hne.
  unfold getTxReceipt, bind at 1, time_Now.
  replace fuel with (K + S (fuel - S K))%nat by lia.
  rewrite (recheck_skip_misses h timeout (now w) Hto K _ w Hmiss).
  cbn [recheck]. unfold bind at 1, client_TransactionReceipt.
  cbn [now lookups trace].
  destruct (TransactionReceipt node (lookups w + K) h) as [lat reply].
  cbn [snd fst] in *. subst reply. rewrite Hne. unfold raise.
  f_equal. f_equal.
  - lia.
  - rewrite <- app_assoc. reflexivity.
Qed.

(** Once the deadline has passed the loop never reports a timeout. *)
Lemma recheck_no_timeout_past_deadline (h : Hash) (timeout beginTime : Z) :
  (forall n, 0 <= fst (TransactionReceipt node n h)) ->
  forall (fuel : nat) (w : World),
    beginTime + timeout <= now w ->
    is_timeout_error (fst (recheck node fuel h timeout beginTime w)) = false.
Proof.
  intros Hlat. induction fuel as [|fuel IH]; intros w Hpast; [reflexivity|].
  cbn [recheck]. unfold bind at 1, client_TransactionReceipt.
  pose proof (Hlat (lookups w)) as Hl.
  destruct (TransactionReceipt node (lookups w) h) as [lat [rp|err]].
  - reflexivity.
  - cbn [fst] in Hl. destruct (is_NotFound err); [|reflexivity].
    unfold bind, emit, time_Now, time_Sleep. cbn [now lookups trace].
    replace (now w + lat <? beginTime + timeout) with false
      by (symmetry; apply Z.ltb_ge; lia).
    rewrite andb_false_r. apply IH. cbn [now]. unfold Second. lia.
Qed.

(** X13.  With a positive timeout, getTxReceipt reports a timeout only
    right after its first lookup, and only when that lookup missed before
    the deadline; it never reports one after it has waited. *)
Theorem getTxReceipt_timeout_only_at_first_lookup (h : Hash) (timeout : Z)
    (fuel : nat) (w : World) :
  0 < timeout ->
  (forall n, 0 <= fst (TransactionReceipt node n h)) ->
  is_timeout_error (fst (getTxReceipt node fuel h timeout w)) = true ->
  fst (TransactionReceipt node (lookups w) h) < timeout /\
  snd (getTxReceipt node fuel h timeout w)
  = mkWorld (now w + fst (TransactionReceipt node (lookups w) h))
            (S (lookups w))
            (trace w ++ [CallTransactionReceipt h; Log (LogTxNotFound h)]).
Proof.
  intros HT Hlat.
  change (getTxReceipt node fuel h timeout w)
    with (recheck node fuel h timeout (now w) w).
  destruct fuel as [|fuel]; [discriminate|].
  destruct (snd (TransactionReceipt node (lookups w) h)) as [rp|err] eqn:E.
  - rewrite (recheck_found _ _ _ _ _ _ _ E). discriminate.
  - destruct (is_NotFound err) eqn:Enf.
    + destruct err; try discriminate.
      rewrite (recheck_miss _ _ _ _ _ _ E). cbn zeta.
      replace (0 <? timeout) with true by (symmetry; apply Z.ltb_lt; lia).
      cbn [andb].
      destruct (now w + fst (TransactionReceipt node (lookups w) h)
                <? now w + timeout) eqn:Elt.
      * intros _. apply Z.ltb_lt in Elt. split; [lia|].
        cbn [snd]. rewrite <- app_assoc. reflexivity.
      * apply Z.ltb_ge in Elt. intros H.
        rewrite recheck_no_timeout_past_deadline in H;
          [discriminate | exact Hlat |].
        cbn [now]. unfold Second. lia.
    + cbn [recheck]. unfold bind at 1, client_TransactionReceipt.
      destruct (TransactionReceipt node (lookups w) h) as [lat reply].
      cbn [snd] in E. subst reply. rewrite Enf. discriminate.
Qed.

End Polling.

Lemma getTxReceipt_polls_until_found_witness :
  fst (getTxReceipt (Sample.node 3) 10 [1] 0 Sample.world0)
  = Ok Sample.receipt.
Proof.
  refine (f_equal fst (proj1 (getTxReceipt_polls_until_found (Sample.node 3)
            [1] Sample.receipt 0 3 10 Sample.world0 _ _ _ eq_refl))).
  - lia.
  - lia.
  - intros i Hi. destruct i as [|[|[|i]]]; try reflexivity. lia.
Defined.

Lemma getTxReceipt_timeout_only_at_first_lookup_witness :
  fst (TransactionReceipt (Sample.node 3) 0 [1]) < 60 * Second.
Proof.
  refine (proj1 (getTxReceipt_timeout_only_at_first_lookup (Sample.node 3)
            [1] (60 * Second) 10 Sample.world0 _ _ eq_refl)).
  - reflexivity.
  - intros n. cbn. discriminate.
Defined.

Lemma getTxReceipt_lookup_error_is_final_witness :
  fst (getTxReceipt (Cases.node_lookup_fails 2) 10 [1] 0 Sample.world0)
  = Err (Wrap "TransactionReceipt fail" (RpcError "connection reset")).
Proof.
  refine (f_equal fst (getTxReceipt_lookup_error_is_final
            (Cases.node_lookup_fails 2) [1] (RpcError "connection reset")
            0 2 10 Sample.world0 _ _ _ eq_refl eq_refl)).
  - lia.
  - lia.
  - intros i Hi. destruct i as [|[|i]]; try reflexivity. lia.
Defined.

(** ** More on Transact *)

Section MoreTransact.

Variable lib : Lib.
Variable node : Node.
Variable opt : Options.

(** X14.  A legacy transaction whose nonce, gas limit and gas price are all
    given by the caller is built from exactly those values: up to the
    signature Transact asks the node for the chain id and nothing else. *)
Theorem Transact_legacy_overrides (privateKey : PrivateKey)
    (toAddress : option Address) (amount gasPrice : Z) (data : list byte)
    (chainID : Z) (signedTx : SignedTx) (w : World) :
  0 <= globalOptNonce opt < 2 ^ 64 ->
  globalOptGasLimit opt <> 0 ->
  String.eqb (globalOptTxType opt) (txTypeEip1559 opt) = false ->
  globalOptShowRawTx opt = false ->
  globalOptShowEstimateGas opt = false ->
  NetworkID node = Success chainID ->
  SignTx lib
    (LegacyTx (globalOptNonce opt) toAddress amount (globalOptGasLimit opt)
       gasPrice data) chainID privateKey = Success signedTx ->
  Transact_prepare lib node opt privateKey toAddress amount (Some gasPrice)
    data w
  = (Ok (PubkeyToAddress lib privateKey, globalOptNonce opt, signedTx),
     mkWorld (now w) (lookups w) (trace w ++ [CallNetworkID])).
Proof.
  intros Hnonce Hgas Htype Hraw Hest Hid Hsign.
  unfold Transact_prepare, Transact_nonce, Transact_gasLimit,
    Transact_gasPrice, Transact_newTx, Transact_sign.
  replace (globalOptNonce opt <? 0) with false
    by (symmetry; apply Z.ltb_ge; lia).
  replace (globalOptGasLimit opt =? 0) with false
    by (symmetry; apply Z.eqb_neq; exact Hgas).
  rewrite Htype, Hraw, Hest.
  unfold uint64. rewrite Z.mod_small by lia.
  unfold bind, ret, wrapErr.
  rewrite (call_success _ _ _ _ Hid). rewrite Hsign. reflexivity.
Qed.

End MoreTransact.

Lemma Transact_legacy_overrides_witness :
  exists signedTx,
    Transact_prepare Sample.lib (Sample.node 0) Cases.legacy_overrides
      5 (Some [1]) 1 (Some 1) [] Sample.world0
    = (Ok ([5], 5, signedTx), mkWorld 0 0 [CallNetworkID]) /\
    stx_tx signedTx = LegacyTx 5 (Some [1]) 1 21000 1 [].
Proof.
  eexists. split.
  - refine (Transact_legacy_overrides Sample.lib (Sample.node 0)
              Cases.legacy_overrides 5 (Some [1]) 1 1 [] 1 _ Sample.world0
              _ _ eq_refl eq_refl eq_refl eq_refl eq_refl).
    + cbn. lia.
    + discriminate.
  - reflexivity.
Defined.

Lemma gwei_to_wei_rejected (s e : string) :
  decimal.NewFromString s = inl e -> gwei_to_wei s = Ok 0.
Proof. intros H. unfold gwei_to_wei. rewrite H. reflexivity. Qed.







Section FeeOverrides.

Variable node : Node.
Variable opt : Options.

(** X15.  When only one of the two fee overrides is supplied, the fee
    history is still fetched and the other value is the estimate: with only
    the priority fee given, the max fee is the latest base fee plus the
    estimated mean reward, whatever the given priority fee is; with only
    the max fee given, the priority fee is the estimated mean reward. *)
Theorem Transact_feeCaps_single_override
    (fh : FeeHistory) (blk : Block) (base : Z)
    (l0 m0 h0 l1 m1 h1 l2 m2 h2 : Z) (t0 t1 t2 : list Z)
    (rest : list (list Z)) (ip fp : list Z) (w : World) :
  eth_feeHistory node 4 [5; 50; 95] = Success fh ->
  Reward fh = (l0 :: m0 :: h0 :: t0) :: (l1 :: m1 :: h1 :: t1)
                :: (l2 :: m2 :: h2 :: t2) :: rest ->
  BlockByNumber node = Success blk ->
  BaseFee blk = Some base ->
  exact_gwei ip fp ->
  let given := digits_value (ip ++ fp) * 10 ^ (9 - len fp) in
  let mean := (m0 + m1 + m2) / 3 in
  let fetched :=
    mkWorld (now w) (lookups w)
      (trace w ++ [CallFeeHistory 4 [5; 50; 95]; CallBlockByNumber]) in
  (globalOptMaxPriorityFeePerGas opt = amount_string ip fp ->
   globalOptMaxFeePerGas opt = EmptyString ->
   Transact_feeCaps node opt w = (Ok (given, base + mean), fetched)) /\
  (globalOptMaxPriorityFeePerGas opt = EmptyString ->
   globalOptMaxFeePerGas opt = amount_string ip fp ->
   Transact_feeCaps node opt w = (Ok (mean, given), fetched)).
Proof.
  intros Hfh HR Hblk Hbase Hex given mean fetched.
  pose proof (Transact_feeEstimate_rows node fh blk base l0 m0 h0 l1 m1 h1
                l2 m2 h2 t0 t1 t2 rest w Hfh HR Hblk Hbase) as Hest.
  assert (Hne : is_empty (amount_string ip fp) = false).
  { apply is_empty_false, amount_string_nonempty. apply Hex. }
  split; intros E1 E2; unfold Transact_feeCaps; rewrite E1, E2, Hne;
    cbn [is_empty orb]; unfold bind at 1; rewrite Hest;
    rewrite (gwei_to_wei_exact ip fp Hex); reflexivity.
Qed.

(** X16.  An override string that NewFromString rejects is not reported:
    its fee is 0 wei.  With two such overrides the dynamic-fee transaction
    is built with both fee caps 0, and the node is not asked. *)
Theorem Transact_rejected_overrides_give_zero (e1 e2 : string)
    (nonce : Z) (toAddress : option Address) (amount gasLimit gasPrice : Z)
    (data : list byte) (w : World) :
  globalOptTxType opt = txTypeEip1559 opt ->
  globalOptMaxPriorityFeePerGas opt <> EmptyString ->
  globalOptMaxFeePerGas opt <> EmptyString ->
  decimal.NewFromString (globalOptMaxPriorityFeePerGas opt) = inl e1 ->
  decimal.NewFromString (globalOptMaxFeePerGas opt) = inl e2 ->
  Transact_newTx node opt nonce toAddress amount gasLimit gasPrice data w
  = (Ok (DynamicFeeTx nonce toAddress amount gasLimit 0 0 data), w).
Proof.
  intros Htype Hn1 Hn2 H1 H2. unfold Transact_newTx.
  rewrite Htype, String.eqb_refl. unfold Transact_feeCaps.
  rewrite (is_empty_false _ Hn1), (is_empty_false _ Hn2). cbn [orb].
  rewrite (gwei_to_wei_rejected _ _ H1), (gwei_to_wei_rejected _ _ H2).
  reflexivity.
Qed.


(** X18.  A fee history with fewer than three rows makes the estimate panic
    with an index out of range, and a latest block without a base fee
    makes it panic with a nil dereference. *)
Theorem Transact_feeEstimate_panics (fh : FeeHistory) (w : World) :
  eth_feeHistory node 4 [5; 50; 95] = Success fh ->
  ((length (Reward fh) < 3)%nat ->
   Transact_feeEstimate node w
   = (Panic IndexOutOfRange,
      mkWorld (now w) (lookups w)
        (trace w ++ [CallFeeHistory 4 [5; 50; 95]]))) /\
  (forall l0 m0 h0 l1 m1 h1 l2 m2 h2 t0 t1 t2 rest blk,
     Reward fh = (l0 :: m0 :: h0 :: t0) :: (l1 :: m1 :: h1 :: t1)
                   :: (l2 :: m2 :: h2 :: t2) :: rest ->
     BlockByNumber node = Success blk ->
     BaseFee blk = None ->
     Transact_feeEstimate node w
     = (Panic NilDereference,
        mkWorld (now w) (lookups w)
          (trace w ++ [CallFeeHistory 4 [5; 50; 95]; CallBlockByNumber]))).
Proof.
  intros Hfh. split.
  - intros Hlen. unfold Transact_feeEstimate.
    unfold bind at 1, checkErr at 1. rewrite (call_success _ _ _ _ Hfh).
    unfold bind at 1, reward_mean, Reward_at, bind, panic, ret.
    destruct (Reward fh) as [|[|a0 r0] [|[|a1 r1] [|r2 rest]]];
      cbn [length nth_error] in *; try reflexivity; lia.
  - intros l0 m0 h0 l1 m1 h1 l2 m2 h2 t0 t1 t2 rest blk HR Hblk Hbase.
    unfold Transact_feeEstimate.
    unfold bind at 1, checkErr at 1. rewrite (call_success _ _ _ _ Hfh).
    unfold bind at 1.
    rewrite (reward_mean_rows fh 0 _ _ _ _ l0 l1 l2 _ HR) by reflexivity.
    unfold bind at 1.
    rewrite (reward_mean_rows fh 1 _ _ _ _ m0 m1 m2 _ HR) by reflexivity.
    unfold bind at 1.
    rewrite (reward_mean_rows fh 2 _ _ _ _ h0 h1 h2 _ HR) by reflexivity.
    unfold bind at 1, checkErr at 1.
    rewrite (call_success _ _ _ _ Hblk).
    rewrite Hbase. unfold panic. cbn [now lookups trace].
    rewrite <- app_assoc. reflexivity.
Qed.

End FeeOverrides.

Lemma Transact_feeCaps_single_override_witness :
  Transact_feeCaps (Sample.node 0) (Sample.with_fees "100" "" Sample.options)
    Sample.world0
  = (Ok (100000000000, 0x4d8275e8e + 666666666),
     mkWorld 0 0 [CallFeeHistory 4 [5; 50; 95]; CallBlockByNumber]) /\
  0x4d8275e8e + 666666666 < 100000000000.
Proof.
  split; [|reflexivity].
  refine (proj1 (Transact_feeCaps_single_override (Sample.node 0)
            (Sample.with_fees "100" "" Sample.options)
            Sample.feeHistory {| BaseFee := Some 0x4d8275e8e |} 0x4d8275e8e
            0x6b51f67 0x3b9aca00 0x106853ddd8
            0xa9970dc 0x1dcd6500 0x10abffd64
            0x6190547 0x1dcd6500 0x9becf3d3c
            [] [] [] [[0x94a104a; 0x1dcd6500; 0x1032d8cdb]]
            [1; 0; 0] [] Sample.world0
            eq_refl eq_refl eq_refl eq_refl _) eq_refl eq_refl).
  repeat split; try (repeat constructor; unfold is_digit; lia);
    try discriminate.
Defined.

Lemma Transact_rejected_overrides_give_zero_witness :
  Transact_newTx (Sample.node 0)
    (Sample.with_fees "abc" "1.2.3" Sample.options) 7 None 0 21000 1 []
    Sample.world0
  = (Ok (DynamicFeeTx 7 None 0 21000 0 0 []), Sample.world0).
Proof.
  refine (Transact_rejected_overrides_give_zero (Sample.node 0)
            (Sample.with_fees "abc" "1.2.3" Sample.options)
            _ _ 7 None 0 21000 1 [] Sample.world0
            eq_refl _ _ eq_refl eq_refl); discriminate.
Defined.


Lemma Transact_feeEstimate_panics_witness :
  Transact_feeEstimate
    (Cases.with_feeHistory
       (Success (mkFeeHistory 1 [[1; 2; 3]; [4; 5; 6]] [7; 8; 9]))
       (Sample.node 0)) Sample.world0
  = (Panic IndexOutOfRange, mkWorld 0 0 [CallFeeHistory 4 [5; 50; 95]]).
Proof.
  refine (proj1 (Transact_feeEstimate_panics
            (Cases.with_feeHistory
               (Success (mkFeeHistory 1 [[1; 2; 3]; [4; 5; 6]] [7; 8; 9]))
               (Sample.node 0))
            (mkFeeHistory 1 [[1; 2; 3]; [4; 5; 6]] [7; 8; 9])
            Sample.world0 eq_refl) _).
  cbn. lia.
Defined.

Section Submit.

Variable lib : Lib.
Variable node : Node.
Variable opt : Options.

Lemma emits_Transact_no_poll (fuel : nat) (privateKey : PrivateKey)
    (toAddress : option Address) (amount : Z) (gasPrice : option Z)
    (data : list byte) :
  transferNotCheck opt = true ->
  emits not_poll
    (Transact lib node opt fuel privateKey toAddress amount gasPrice data).
Proof.
  intros Hskip.
  unfold Transact, Transact_prepare, Transact_nonce, Transact_gasLimit,
    Transact_gasPrice, Transact_newTx, Transact_feeCaps, Transact_feeEstimate,
    Transact_sign, Transact_submit, Transact_confirm, SendRawTransaction,
    isContractAddress, reward_mean, Reward_at.
  rewrite Hskip. emits_auto.
Qed.

(** X19.  With confirmation skipped, a run of Transact makes no receipt
    lookup and no wait, and once the broadcast is accepted it returns the
    hash the node answered with. *)
Theorem Transact_skip_confirmation (fuel : nat) (privateKey : PrivateKey)
    (toAddress : option Address) (amount : Z) (gasPrice : option Z)
    (data : list byte) (w : World) :
  transferNotCheck opt = true ->
  let run := Transact lib node opt fuel privateKey toAddress amount gasPrice
               data w in
  extends not_poll w (snd run) /\
  (forall fromAddress nonce signedTx w1 rawTx result,
     Transact_prepare lib node opt privateKey toAddress amount gasPrice data w
     = (Ok (fromAddress, nonce, signedTx), w1) ->
     globalOptDryRun opt = false ->
     GenRawTx lib signedTx = Success rawTx ->
     eth_sendRawTransaction node rawTx = Success result ->
     fst run
     = Ok (Hash_String lib (HexToHash lib (hexutil_Encode lib result)))).
Proof.
  intros Hskip run. split.
  - apply emits_Transact_no_poll, Hskip.
  - intros fromAddress nonce signedTx w1 rawTx result Hprep Hdry Hraw Hsend.
    subst run. unfold Transact, bind at 1. rewrite Hprep, Hdry.
    unfold Transact_submit, bind at 1, wrapErr.
    rewrite (SendRawTransaction_sent _ _ _ _ _ _ Hraw Hsend).
    unfold bind at 1, Transact_confirm. rewrite Hskip.
    destruct (Hash_eqb (TxHash lib signedTx)
                (HexToHash lib (hexutil_Encode lib result))); reflexivity.
Qed.

(** X20.  A receipt that reports failure makes the confirmation fail: after
    [K] misses and a receipt whose status is not "successful", Transact's
    confirmation returns the error that the transaction was mined but
    failed, not the hash. *)
Theorem Transact_confirm_reverted (fuel K : nat) (fromAddress : Address)
    (nonce : Z) (toAddress : option Address) (h : Hash) (rp : Receipt)
    (w : World) :
  transferNotCheck opt = false ->
  (K < fuel)%nat ->
  (forall i, (i < K)%nat ->
     snd (TransactionReceipt node (lookups w + i) h) = Failure NotFound) ->
  snd (TransactionReceipt node (lookups w + K) h) = Success rp ->
  Status rp <> ReceiptStatusSuccessful ->
  fst (Transact_confirm lib node opt fuel fromAddress nonce toAddress h w)
  = Err (Errorf "tx minted, but status is failed").
Proof.
  intros Hcheck Hfuel Hmiss Hhit Hstatus. unfold Transact_confirm.
  rewrite Hcheck. unfold bind at 1, wrapErr, getTxReceipt, bind at 1, time_Now.
  destruct (recheck_unbounded node h rp (now w) K fuel w Hfuel Hmiss Hhit)
    as [evs [Hrun _]].
  rewrite Hrun.
  replace (Status rp =? ReceiptStatusSuccessful) with false
    by (symmetry; apply Z.eqb_neq; exact Hstatus).
  cbn [negb]. unfold bind.
  destruct (negb (globalOptTerseOutput opt)
            && existsb (fun kv => String.eqb (snd kv) (globalOptNodeUrl opt))
                       (nodeUrlMap opt)); reflexivity.
Qed.

(** X21.  When the signed transaction cannot be serialised, nothing is sent
    and Transact's broadcast step returns the error; when the node rejects
    the raw transaction, the error is returned after that one call.  In
    both cases the error is wrapped as "SendRawTransaction fail" and no
    receipt is looked up. *)
Theorem Transact_submit_failures (fuel : nat) (fromAddress : Address)
    (nonce : Z) (toAddress : option Address) (signedTx : SignedTx)
    (w : World) :
  (forall e,
     MarshalBinary lib signedTx = Failure e ->
     Transact_submit lib node opt fuel fromAddress nonce toAddress signedTx w
     = (Err (Wrap "SendRawTransaction fail" e), w)) /\
  (forall data e,
     MarshalBinary lib signedTx = Success data ->
     eth_sendRawTransaction node (hexutil_Encode lib data) = Failure e ->
     Transact_submit lib node opt fuel fromAddress nonce toAddress signedTx w
     = (Err (Wrap "SendRawTransaction fail" e),
        mkWorld (now w) (lookups w)
          (trace w ++ [CallSendRawTransaction (hexutil_Encode lib data)]))).
Proof.
  split.
  - intros e Hm. unfold Transact_submit, bind, wrapErr, SendRawTransaction,
      bind, GenRawTx. rewrite Hm. destruct w. reflexivity.
  - intros data e Hm Hsend.
    unfold Transact_submit, bind at 1, wrapErr, SendRawTransaction,
      bind at 1, GenRawTx. rewrite Hm. cbn [of_reply]. unfold ret at 1.
    unfold bind at 1, call, bind, emit. rewrite Hsend. reflexivity.
Qed.

(** X22.  A failure up to and including the signature (an error, a fatal
    exit or a panic) is the outcome of Transact, and nothing was broadcast
    or polled when it occurs. *)
Theorem Transact_prepare_failure_is_final (fuel : nat)
    (privateKey : PrivateKey) (toAddress : option Address) (amount : Z)
    (gasPrice : option Z) (data : list byte) (w : World) :
  let prep := Transact_prepare lib node opt privateKey toAddress amount
                gasPrice data w in
  let run := Transact lib node opt fuel privateKey toAddress amount gasPrice
               data w in
  extends not_broadcast_or_poll w (snd prep) /\
  (forall e, fst prep = Err e -> run = (Err e, snd prep)) /\
  (forall e, fst prep = Fatal e -> run = (Fatal e, snd prep)) /\
  (forall p, fst prep = Panic p -> run = (Panic p, snd prep)).
Proof.
  intros prep run. split; [apply emits_prepare_no_broadcast|].
  subst run. unfold Transact, bind. fold prep.
  destruct prep as [[x|e|e|p|] w1]; cbn [fst snd];
    repeat split; intros y H; try discriminate; inversion H; reflexivity.
Qed.

End Submit.

Lemma Transact_skip_confirmation_witness :
  fst (Transact Sample.lib (Sample.node 2)
         (Cases.with_flags false true Sample.options)
         10 5 (Some [1]) 1 None [] Sample.world0)
  = Ok (Hash_String Sample.lib [5]).
Proof.
  refine (proj2 (Transact_skip_confirmation Sample.lib (Sample.node 2)
                   (Cases.with_flags false true Sample.options)
                   10 5 (Some [1]) 1 None [] Sample.world0 eq_refl)
            _ _ _ _ _ [1; 2; 3] eq_refl eq_refl eq_refl eq_refl).
Defined.

Lemma Transact_confirm_reverted_witness :
  fst (Transact_confirm Sample.lib (Cases.node_reverted 1) Sample.options
         10 [5] 7 (Some [1]) [9] Sample.world0)
  = Err (Errorf "tx minted, but status is failed").
Proof.
  refine (Transact_confirm_reverted Sample.lib (Cases.node_reverted 1)
            Sample.options 10 1 [5] 7 (Some [1]) [9] {| Status := 0 |}
            Sample.world0 eq_refl _ _ eq_refl _).
  - lia.
  - intros i Hi. destruct i as [|i]; [reflexivity | lia].
  - discriminate.
Defined.

Lemma Transact_submit_failures_witness :
  Transact_submit
    (Cases.with_MarshalBinary (fun _ => Failure (Errorf "encode")) Sample.lib)
    (Sample.node 0) Sample.options 10 [5] 7 None
    (mkSignedTx (LegacyTx 7 None 0 21000 1 []) 37 1 1) Sample.world0
  = (Err (Wrap "SendRawTransaction fail" (Errorf "encode")), Sample.world0).
Proof.
  refine (proj1 (Transact_submit_failures
            (Cases.with_MarshalBinary (fun _ => Failure (Errorf "encode"))
               Sample.lib)
            (Sample.node 0) Sample.options 10 [5] 7 None
            (mkSignedTx (LegacyTx 7 None 0 21000 1 []) 37 1 1) Sample.world0)
            (Errorf "encode") eq_refl).
Defined.

Lemma Transact_prepare_failure_is_final_witness :
  Transact Sample.lib
    (Cases.with_NetworkID (Failure (RpcError "down")) (Sample.node 0))
    Cases.legacy_overrides 10 5 (Some [1]) 1 (Some 1) [] Sample.world0
  = (Err (Wrap "NetworkID fail" (RpcError "down")),
     mkWorld 0 0 [CallNetworkID]).
Proof.
  refine (proj1 (proj2 (Transact_prepare_failure_is_final Sample.lib
            (Cases.with_NetworkID (Failure (RpcError "down")) (Sample.node 0))
            Cases.legacy_overrides 10 5 (Some [1]) 1 (Some 1) []
            Sample.world0)) _ eq_refl).
Defined.

Section ErrorPaths.

Variable lib : Lib.
Variable node : Node.
Variable opt : Options.

(** X23.  When no gas price is passed in, Transact asks the gas-price
    source whatever the transaction type, dynamic-fee transactions
    included, and a failure of that source ends the process
    (log.Fatalf) instead of being returned as an error. *)
Theorem Transact_gas_price_failure_is_fatal (fuel : nat)
    (privateKey : PrivateKey) (toAddress : option Address) (amount : Z)
    (data : list byte) (e : Error) (w : World) :
  0 <= globalOptNonce opt ->
  globalOptGasLimit opt <> 0 ->
  getGasPrice node = Failure e ->
  Transact lib node opt fuel privateKey toAddress amount None data w
  = (Fatal e, mkWorld (now w) (lookups w) (trace w ++ [CallGetGasPrice])).
Proof.
  intros Hnonce Hgas Hprice.
  unfold Transact, Transact_prepare, Transact_nonce, Transact_gasLimit,
    Transact_gasPrice.
  replace (globalOptNonce opt <? 0) with false
    by (symmetry; apply Z.ltb_ge; lia).
  replace (globalOptGasLimit opt =? 0) with false
    by (symmetry; apply Z.eqb_neq; exact Hgas).
  unfold bind, ret, checkErr, call, bind, emit. rewrite Hprice. reflexivity.
Qed.

(** X24.  Without a gas-limit override, a failing code probe of the
    destination makes Transact return the error, wrapped as
    "isContractAddress fail", also when the payload is not empty and the
    probe's answer would not change the gas limit. *)
Theorem Transact_probe_failure_aborts (fuel : nat) (privateKey : PrivateKey)
    (to : Address) (amount : Z) (gasPrice : option Z) (data : list byte)
    (e : Error) (w : World) :
  0 <= globalOptNonce opt ->
  globalOptGasLimit opt = 0 ->
  CodeAt node to = Failure e ->
  Transact lib node opt fuel privateKey (Some to) amount gasPrice data w
  = (Err (Wrap "isContractAddress fail" e),
     mkWorld (now w) (lookups w) (trace w ++ [CallCodeAt to])).
Proof.
  intros Hnonce Hgas Hcode.
  unfold Transact, Transact_prepare, Transact_nonce, Transact_gasLimit,
    isContractAddress.
  replace (globalOptNonce opt <? 0) with false
    by (symmetry; apply Z.ltb_ge; lia).
  rewrite Hgas. cbn [Z.eqb].
  unfold bind, ret, wrapErr, call, bind, emit. rewrite Hcode. reflexivity.
Qed.

(** X25.  With the gas simulation switched on, a failing EstimateGas makes
    Transact return the error, wrapped as "EstimateGas fail": the
    transaction is signed but not broadcast.  The simulated message
    carries the legacy gas price, the gas limit and the payload. *)
Theorem Transact_estimate_gas_failure_aborts (fuel : nat)
    (privateKey : PrivateKey) (toAddress : option Address)
    (amount gasPrice : Z) (data : list byte) (chainID : Z)
    (signedTx : SignedTx) (e : Error) (w : World) :
  0 <= globalOptNonce opt < 2 ^ 64 ->
  globalOptGasLimit opt <> 0 ->
  String.eqb (globalOptTxType opt) (txTypeEip1559 opt) = false ->
  globalOptShowRawTx opt = false ->
  globalOptShowEstimateGas opt = true ->
  NetworkID node = Success chainID ->
  SignTx lib
    (LegacyTx (globalOptNonce opt) toAddress amount (globalOptGasLimit opt)
       gasPrice data) chainID privateKey = Success signedTx ->
  let msg := mkCallMsg (PubkeyToAddress lib privateKey) toAddress
               (globalOptGasLimit opt) gasPrice amount data in
  EstimateGas node msg = Failure e ->
  Transact lib node opt fuel privateKey toAddress amount (Some gasPrice)
    data w
  = (Err (Wrap "EstimateGas fail" e),
     mkWorld (now w) (lookups w)
       (trace w ++ [CallNetworkID; CallEstimateGas msg])).
Proof.
  intros Hnonce Hgas Htype Hraw Hest Hid Hsign msg Hfail.
  unfold Transact, Transact_prepare, Transact_nonce, Transact_gasLimit,
    Transact_gasPrice, Transact_newTx, Transact_sign.
  replace (globalOptNonce opt <? 0) with false
    by (symmetry; apply Z.ltb_ge; lia).
  replace (globalOptGasLimit opt =? 0) with false
    by (symmetry; apply Z.eqb_neq; exact Hgas).
  rewrite Htype, Hraw, Hest.
  unfold uint64. rewrite Z.mod_small by lia.
  subst msg.
  unfold bind, wrapErr, call, bind, emit, of_reply.
  rewrite Hid. unfold ret. cbv beta iota zeta.
  rewrite Hsign. cbv beta iota zeta. cbn [now lookups trace].
  rewrite Hfail. unfold raise. cbv beta iota.
  rewrite <- app_assoc. reflexivity.
Qed.

End ErrorPaths.

Lemma Transact_gas_price_failure_is_fatal_witness :
  Transact Sample.lib
    (Cases.with_getGasPrice (Failure (RpcError "down")) (Sample.node 0))
    (Sample.with_gasLimit 21000
       (Sample.with_fees "1.5" "30" Cases.legacy_overrides))
    10 5 (Some [1]) 1 None [] Sample.world0
  = (Fatal (RpcError "down"), mkWorld 0 0 [CallGetGasPrice]).
Proof.
  refine (Transact_gas_price_failure_is_fatal Sample.lib
            (Cases.with_getGasPrice (Failure (RpcError "down"))
               (Sample.node 0))
            (Sample.with_gasLimit 21000
               (Sample.with_fees "1.5" "30" Cases.legacy_overrides))
            10 5 (Some [1]) 1 [] (RpcError "down") Sample.world0
            _ _ eq_refl).
  - cbn. lia.
  - discriminate.
Defined.

Lemma Transact_probe_failure_aborts_witness :
  Transact Sample.lib
    (Cases.with_CodeAt (fun _ => Failure (RpcError "down")) (Sample.node 0))
    (Sample.with_gasLimit 0 Cases.legacy_overrides)
    10 5 (Some [1]) 1 (Some 1) [1; 2] Sample.world0
  = (Err (Wrap "isContractAddress fail" (RpcError "down")),
     mkWorld 0 0 [CallCodeAt [1]]).
Proof.
  refine (Transact_probe_failure_aborts Sample.lib
            (Cases.with_CodeAt (fun _ => Failure (RpcError "down"))
               (Sample.node 0))
            (Sample.with_gasLimit 0 Cases.legacy_overrides)
            10 5 [1] 1 (Some 1) [1; 2] (RpcError "down") Sample.world0
            _ eq_refl eq_refl).
  cbn. lia.
Defined.

Lemma Transact_estimate_gas_failure_aborts_witness :
  Transact Sample.lib
    (Cases.with_EstimateGas (Failure (RpcError "reverted")) (Sample.node 0))
    (Cases.with_flags true false Cases.legacy_overrides)
    10 5 (Some [1]) 1 (Some 1) [] Sample.world0
  = (Err (Wrap "EstimateGas fail" (RpcError "reverted")),
     mkWorld 0 0
       [CallNetworkID;
        CallEstimateGas (mkCallMsg [5] (Some [1]) 21000 1 1 [])]).
Proof.
  refine (Transact_estimate_gas_failure_aborts Sample.lib
            (Cases.with_EstimateGas (Failure (RpcError "reverted"))
               (Sample.node 0))
            (Cases.with_flags true false Cases.legacy_overrides)
            10 5 (Some [1]) 1 1 [] 1 _ (RpcError "reverted") Sample.world0
            _ _ eq_refl eq_refl eq_refl eq_refl eq_refl eq_refl).
  - cbn. lia.
  - discriminate.
Defined.

(** ** personalSign *)

Lemma add_at_last (rs : list byte) (b d : Z) :
  add_at (rs ++ [b]) (length rs) d = Ok (rs ++ [(b + d) mod 256]).
Proof.
  unfold add_at. rewrite nth_error_app2 by lia. rewrite Nat.sub_diag.
  cbn [nth_error]. f_equal.
  rewrite firstn_app, Nat.sub_diag, firstn_all. cbn [firstn].
  rewrite app_nil_r.
  rewrite skipn_all2 by (rewrite length_app; simpl; lia).
  rewrite app_nil_r. reflexivity.
Qed.

Section PersonalSignFacts.

Variable Keccak256Hash : list byte -> Hash.
Variable crypto_Sign : Hash -> PrivateKey -> Reply (list byte).

(** X26.  When crypto.Sign returns 65 bytes ending in the recovery id 0 or
    1, personalSign returns the 0x-prefixed hex of the same signature with
    27 added to its last byte; that string is a valid hex string, decodes
    to those 65 bytes, and getRecoveryId of the last byte is the recovery
    id crypto.Sign produced. *)
Theorem personalSign_recovery_id (message : string) (privateKey : PrivateKey)
    (rs : list byte) (recid : Z) :
  length rs = 64%nat -> Forall is_byte rs -> (recid = 0 \/ recid = 1) ->
  crypto_Sign
    (Keccak256Hash (bytes_of_string (fullMessage message))) privateKey
  = Success (rs ++ [recid]) ->
  let signature := rs ++ [recid + 27] in
  personalSign Keccak256Hash crypto_Sign message privateKey
  = Ok (hexutil_Encode_0x signature) /\
  isValidHexString (hexutil_Encode_0x signature) = true /\
  hex.DecodeString (string_drop 2 (hexutil_Encode_0x signature))
  = inr signature /\
  getRecoveryId (recid + 27) = recid.
Proof.
  intros Hlen Hbytes Hrec Hsign signature.
  assert (Hsig : Forall is_byte signature).
  { apply Forall_app. split; [exact Hbytes|].
    constructor; [|constructor]. unfold is_byte. lia. }
  split; [|split; [|split]].
  - unfold personalSign. rewrite Hsign. rewrite <- Hlen, add_at_last.
    cbn [res_bind]. subst signature. rewrite Z.mod_small by lia.
    reflexivity.
  - unfold isValidHexString, hexutil_Encode_0x.
    cbn [is_empty has0xPrefix string_drop].
    rewrite !Ascii.eqb_refl. cbn [andb orb].
    rewrite (DecodeString_EncodeToString signature Hsig). reflexivity.
  - unfold hexutil_Encode_0x. cbn [string_drop].
    apply DecodeString_EncodeToString, Hsig.
  - destruct Hrec as [-> | ->]; reflexivity.
Qed.

End PersonalSignFacts.

Lemma decimal_digits_app (fuel : nat) : forall n acc,
  decimal_digits fuel n acc = decimal_digits fuel n [] ++ acc.
Proof.
  induction fuel as [|fuel IH]; intros n acc; cbn [decimal_digits];
    [reflexivity|].
  destruct (n =? 0); [reflexivity|].
  rewrite (IH (n / 10) (n mod 10 :: acc)).
  rewrite (IH (n / 10) (_ :: nil)).
  rewrite <- app_assoc. reflexivity.
Qed.

Lemma decimal_digits_spec (fuel : nat) : forall n,
  0 <= n < 2 ^ Z.of_nat fuel ->
  Forall is_digit (decimal_digits fuel n []) /\
  digits_value (decimal_digits fuel n []) = n.
Proof.
  induction fuel as [|fuel IH]; intros n Hn.
  - simpl in *. split; [constructor|]. unfold digits_value. simpl. lia.
  - cbn [decimal_digits]. destruct (n =? 0) eqn:E.
    + apply Z.eqb_eq in E. subst. split; [constructor | reflexivity].
    + apply Z.eqb_neq in E.
      rewrite decimal_digits_app.
      assert (Hq : 0 <= n / 10 < 2 ^ Z.of_nat fuel).
      { rewrite Nat2Z.inj_succ, Z.pow_succ_r in Hn by lia.
        split; [apply Z.div_pos; lia|].
        apply Z.div_lt_upper_bound; lia. }
      destruct (IH (n / 10) Hq) as [Hd Hv]. split.
      * apply Forall_app. split; [exact Hd|].
        constructor; [|constructor]. unfold is_digit.
        pose proof (Z.mod_pos_bound n 10 ltac:(lia)). lia.
      * rewrite digits_value_app, Hv.
        change (len (n mod 10 :: nil)) with 1.
        replace (digits_value (n mod 10 :: nil)) with (n mod 10)
          by (unfold digits_value; simpl; lia).
        pose proof (Z.div_mod n 10 ltac:(lia)). lia.
Qed.

(** X27.  The text personalSign signs is the header [0x19] "Ethereum Signed
    Message:" and a line feed, then the byte length of the message written
    in decimal, then the message itself. *)
Theorem fullMessage_length_prefix (message : string) :
  exists ds,
    Forall is_digit ds /\ ds <> [] /\
    digits_value ds = decimal.strlen message /\
    fullMessage message
    = (String (ascii_of_nat 25) "Ethereum Signed Message:"
       ++ String (ascii_of_nat 10) (digits_string ds ++ message))%string /\
    strconv.parse_integer (digits_string ds)
    = Some (decimal.strlen message).
Proof.
  set (n := decimal.strlen message).
  assert (Hn : 0 <= n) by (unfold n, decimal.strlen; lia).
  assert (Hex : exists ds, Forall is_digit ds /\ ds <> [] /\
                  digits_value ds = n /\ Sprintf_d n = digits_string ds).
  { unfold Sprintf_d. destruct (n =? 0) eqn:E.
    - apply Z.eqb_eq in E. exists [0]. rewrite E.
      repeat split; try discriminate.
      repeat constructor; unfold is_digit; lia.
    - apply Z.eqb_neq in E.
      destruct (decimal_digits_spec (S (Z.to_nat (Z.log2 n))) n) as [Hd Hv].
      { split; [lia|]. rewrite Nat2Z.inj_succ, Z2Nat.id
          by apply Z.log2_nonneg.
        apply Z.log2_spec. lia. }
      eexists. repeat split; [exact Hd | | exact Hv].
      intros Hnil. rewrite Hnil in Hv. unfold digits_value in Hv.
      simpl in Hv. lia. }
  destruct Hex as [ds [Hd [Hne [Hv Hs]]]].
  exists ds. repeat split; try assumption.
  - unfold fullMessage. fold n. rewrite Hs. reflexivity.
  - rewrite (parse_integer_digits ds Hd Hne). rewrite Hv. reflexivity.
Qed.

Lemma personalSign_recovery_id_witness :
  personalSign (fun bs => [len bs]) (fun _ _ => Success (repeat 7 64 ++ [1]))
    "hello" 5
  = Ok (hexutil_Encode_0x (repeat 7 64 ++ [1 + 27])) /\
  getRecoveryId (1 + 27) = 1.
Proof.
  destruct (personalSign_recovery_id (fun bs => [len bs])
              (fun _ _ => Success (repeat 7 64 ++ [1])) "hello" 5
              (repeat 7 64) 1) as [H1 [_ [_ H4]]].
  - reflexivity.
  - apply Forall_forall. intros x Hx. apply repeat_spec in Hx. subst x.
    unfold is_byte. lia.
  - right. reflexivity.
  - reflexivity.
  - split; [exact H1 | exact H4].
Defined.

(** ** Keys and units *)

(** X28.  buildPrivateKeyFromHex hands HexToECDSA the key without its
    leading 0x or 0X, or the whole key when it has no such prefix, and it
    removes one prefix only: of a doubly prefixed key HexToECDSA receives
    the second prefix.  HexToECDSA's key is returned, and its error ends
    the process. *)
Theorem buildPrivateKeyFromHex_prefix
    (HexToECDSA : string -> Reply PrivateKey) (key : string) :
  let read (s : string) : Res PrivateKey :=
    match HexToECDSA s with
    | Success privateKey => Ok privateKey
    | Failure err => Fatal err
    end in
  buildPrivateKeyFromHex HexToECDSA (String "0" (String "x" key)) = read key /\
  buildPrivateKeyFromHex HexToECDSA (String "0" (String "X" key)) = read key /\
  buildPrivateKeyFromHex HexToECDSA
    (String "0" (String "x" (String "0" (String "x" key))))
  = read (String "0" (String "x" key)) /\
  (has0xPrefix key = false ->
   buildPrivateKeyFromHex HexToECDSA key = read key).
Proof.
  intros read. unfold buildPrivateKeyFromHex.
  cbn [has0xPrefix string_drop]. rewrite !Ascii.eqb_refl. cbn [andb orb].
  replace (Ascii.eqb "X" "x") with false by reflexivity. cbn [orb].
  repeat split. intros Hno. rewrite Hno. reflexivity.
Qed.

Lemma buildPrivateKeyFromHex_prefix_witness :
  buildPrivateKeyFromHex (fun s => Success (decimal.strlen s)) "ab12"
  = Ok 4.
Proof.
  apply (proj2 (proj2 (proj2 (buildPrivateKeyFromHex_prefix
                  (fun s => Success (decimal.strlen s)) "ab12"))) eq_refl).
Defined.

(** X29.  For an amount in gwei, unify2Wei keeps the digits and raises the
    exponent by 9, and its whole-wei part equals the one Transact computes
    for a fee override by multiplying with 1000000000. *)
Theorem unify2Wei_gwei_agrees_with_Transact
    (unitWei unitGwei unitEther : string) (d : decimal.Decimal) :
  String.eqb unitGwei unitWei = false ->
  - 2 ^ 31 <= decimal.exp d <= 2 ^ 31 - 10 ->
  exists wei giga,
    unify2Wei unitWei unitGwei unitEther d unitGwei = Ok wei /\
    decimal.value wei = decimal.value d /\
    decimal.exp wei = decimal.exp d + 9 /\
    decimal.Mul d (decimal.mkDecimal 1000000000 0) = Ok giga /\
    decimal.BigInt wei = decimal.BigInt giga.
Proof.
  intros Hunits Hexp. unfold unify2Wei. rewrite Hunits, String.eqb_refl.
  unfold decimal.Mul, NewFromBigInt. cbn [decimal.exp decimal.value].
  replace ((2 ^ 31 - 1 <? decimal.exp d + 9)
           || (decimal.exp d + 9 <? - 2 ^ 31)) with false
    by (symmetry; apply orb_false_iff; split; apply Z.ltb_ge; lia).
  replace ((2 ^ 31 - 1 <? decimal.exp d + 0)
           || (decimal.exp d + 0 <? - 2 ^ 31)) with false
    by (symmetry; apply orb_false_iff; split; apply Z.ltb_ge; lia).
  eexists. eexists. split; [reflexivity|].
  cbn [decimal.exp decimal.value]. split; [lia|]. split; [reflexivity|].
  split; [reflexivity|].
  unfold decimal.BigInt. cbn [decimal.exp decimal.value].
  set (v := decimal.value d). set (e := decimal.exp d) in *.
  rewrite Z.add_0_r, Z.mul_1_r.
  destruct (Z.eq_dec e 0) as [E0|E0].
  { rewrite E0. reflexivity. }
  replace (e =? 0) with false by (symmetry; apply Z.eqb_neq; lia).
  destruct (Z_lt_le_dec e 0) as [Eneg|Epos].
  - replace (e <? 0) with true by (symmetry; apply Z.ltb_lt; lia).
    destruct (Z.eq_dec (e + 9) 0) as [E9|E9].
    + rewrite E9. cbn [Z.eqb]. replace (- e) with 9 by lia.
      change (10 ^ 9) with 1000000000.
      symmetry. apply Z.quot_mul. lia.
    + replace (e + 9 =? 0) with false by (symmetry; apply Z.eqb_neq; lia).
      destruct (Z_lt_le_dec (e + 9) 0) as [E9n|E9p].
      * replace (e + 9 <? 0) with true by (symmetry; apply Z.ltb_lt; lia).
        replace (- e) with (- (e + 9) + 9) by lia.
        rewrite Z.pow_add_r by lia. change (10 ^ 9) with 1000000000.
        symmetry. apply Z.quot_mul_cancel_r.
        -- apply Z.pow_nonzero; lia.
        -- lia.
      * replace (e + 9 <? 0) with false by (symmetry; apply Z.ltb_ge; lia).
        replace 1000000000 with (10 ^ (e + 9) * 10 ^ (- e)).
        -- rewrite Z.mul_assoc. symmetry. apply Z.quot_mul.
           apply Z.pow_nonzero; lia.
        -- rewrite <- Z.pow_add_r by lia.
           replace (e + 9 + - e) with 9 by lia. reflexivity.
  - replace (e <? 0) with false by (symmetry; apply Z.ltb_ge; lia).
    replace (e + 9 =? 0) with false by (symmetry; apply Z.eqb_neq; lia).
    replace (e + 9 <? 0) with false by (symmetry; apply Z.ltb_ge; lia).
    rewrite Z.pow_add_r by lia. change (10 ^ 9) with 1000000000. ring.
Qed.

Lemma unify2Wei_gwei_agrees_with_Transact_witness :
  exists wei giga,
    unify2Wei "wei" "gwei" "ether" (decimal.mkDecimal 15 (-1)) "gwei"
    = Ok wei /\
    decimal.value wei = 15 /\ decimal.exp wei = -1 + 9 /\
    decimal.Mul (decimal.mkDecimal 15 (-1)) (decimal.mkDecimal 1000000000 0)
    = Ok giga /\
    decimal.BigInt wei = decimal.BigInt giga.
Proof.
  apply (unify2Wei_gwei_agrees_with_Transact "wei" "gwei" "ether"
           (decimal.mkDecimal 15 (-1)) eq_refl).
  cbn. lia.
Defined.
